(** * BggPlays: the play-statistics core of the boardgame connector

    A shallow embedding of [src/boardgame-connector/bgg_plays.py].  The
    class [BggPlays] keeps the list of parsed plays in [self.data]
    ([None] until the first fetch); its methods are modelled as functions
    of the object, raising Python exceptions through the [result] type.

    What is outside the module (the HTTP request, the XML parser, the ISO
    date parser, the built-in [int] on strings and the constant
    [BASE_URL] of the absent module [bgg_api]) is gathered in the record
    [World].  Calls to [logging] change neither the control flow nor
    [self.data] and are left out; [requests_cache] is transparent for a
    remote that answers as a function of the request. *)

From Stdlib Require Import ZArith List String Ascii Bool Lia.
From Stdlib Require Import Floats Uint63 Permutation Sorted.
Import ListNotations.

Local Open Scope string_scope.
Local Open Scope list_scope.
Local Open Scope Z_scope.

(** ** Python exceptions and results *)

Inductive exception : Type :=
| Exception (msg : string)
| KeyError (key : string)
| TypeError
| ValueError
| IndexError
| StopIteration
| ZeroDivisionError
| OverflowError
| RequestException
| XMLSyntaxError.

Inductive result (A : Type) : Type :=
| Ok (a : A)
| Raise (e : exception).

Arguments Ok {A} a.
Arguments Raise {A} e.

Definition bind {A B : Type} (m : result A) (k : A -> result B) : result B :=
  match m with
  | Ok a => k a
  | Raise e => Raise e
  end.

Notation "x <- m ;; k" := (bind m (fun x => k))
  (at level 61, m at next level, right associativity).

(** A comprehension whose body may raise: elements are visited left to
    right and the first exception ends the loop. *)
Fixpoint mapM {A B : Type} (f : A -> result B) (l : list A) : result (list B) :=
  match l with
  | [] => Ok []
  | x :: t => y <- f x ;; ys <- mapM f t ;; Ok (y :: ys)
  end.

(** ** Python built-ins used by the module *)

Module Py.

(** [d[key]] on a dict whose key may be missing. *)
Definition getitem {A : Type} (key : string) (v : option A) : result A :=
  match v with
  | Some a => Ok a
  | None => Raise (KeyError key)
  end.

(** [sub in s] on two [str]. *)
Fixpoint str_in (sub s : string) : bool :=
  if String.prefix sub s then true
  else match s with
       | EmptyString => false
       | String _ t => str_in sub t
       end.

(** [len([x for x in l if cond(x)])] where [cond] may raise. *)
Fixpoint count_if {A : Type} (cond : A -> result bool) (l : list A) : result nat :=
  match l with
  | [] => Ok O
  | x :: t =>
      b <- cond x ;;
      n <- count_if cond t ;;
      Ok (if b then S n else n)
  end.

(** [sorted(l, key=fst)] on a list already decorated with its keys.
    Python's sort is stable; a stable sort has one possible result, and
    this insertion sort computes it: the head goes in front of the
    first element whose key is not smaller. *)
Fixpoint insert {A : Type} (x : Z * A) (l : list (Z * A)) : list (Z * A) :=
  match l with
  | [] => [x]
  | y :: t => if fst x <=? fst y then x :: y :: t else y :: insert x t
  end.

Fixpoint sorted {A : Type} (l : list (Z * A)) : list (Z * A) :=
  match l with
  | [] => []
  | x :: t => insert x (sorted t)
  end.

(** [itertools.groupby(l, key=fst)]: the maximal runs of consecutive
    elements with equal keys, in order. *)
Fixpoint groupby {A : Type} (l : list (Z * A)) : list (Z * list A) :=
  match l with
  | [] => []
  | (k, x) :: t =>
      match groupby t with
      | (k', g) :: rest =>
          if k =? k' then (k, x :: g) :: rest
          else (k, [x]) :: (k', g) :: rest
      | [] => [(k, [x])]
      end
  end.

(** [sum(f(g) for g in group)]. *)
Definition sum {A : Type} (f : A -> Z) (l : list A) : Z :=
  fold_left (fun acc x => acc + f x) l 0.

(** [max(l, key=lambda k: k[1])]: the first element whose key is
    maximal; [ValueError] on an empty list. *)
Fixpoint max_from (best : Z * Z) (l : list (Z * Z)) : Z * Z :=
  match l with
  | [] => best
  | x :: t => max_from (if snd best <? snd x then x else best) t
  end.

Definition max (l : list (Z * Z)) : result (Z * Z) :=
  match l with
  | [] => Raise ValueError
  | x :: t => Ok (max_from x t)
  end.

(** [float(n)] for the length of a list.  Lists are shorter than
    [2^53], where the conversion is exact and [a / b] on two [int] is
    the binary64 quotient of the two converted operands. *)
Definition float_of_nat (n : nat) : float :=
  PrimFloat.of_uint63 (Uint63.of_Z (Z.of_nat n)).

(** [a / b] on two non-negative [int]. *)
Definition truediv (a b : nat) : result float :=
  match b with
  | O => Raise ZeroDivisionError
  | S _ => Ok (PrimFloat.div (float_of_nat a) (float_of_nat b))
  end.

(** [int(x)] on a [float]: truncation toward zero. *)
Definition int_of_float (x : float) : result Z :=
  match Prim2SF x with
  | S754_zero _ => Ok 0
  | S754_finite s m e =>
      let v := if 0 <=? e then Z.shiftl (Zpos m) e else Z.shiftr (Zpos m) (- e) in
      Ok (if s then - v else v)
  | S754_infinity _ => Raise OverflowError
  | S754_nan => Raise ValueError
  end.

End Py.

(** ** The XML tree returned by [lxml.etree.fromstring] *)

#[local] Set Warnings "-register-all".

Inductive Element : Type :=
| mkElement (tag : string) (attrib : list (string * string))
            (text : option string) (children : list Element).

Module Xml.

Definition tag (x : Element) : string :=
  let 'mkElement t _ _ _ := x in t.

Definition attrib (x : Element) : list (string * string) :=
  let 'mkElement _ a _ _ := x in a.

Definition text (x : Element) : option string :=
  let 'mkElement _ _ t _ := x in t.

Definition children (x : Element) : list Element :=
  let 'mkElement _ _ _ c := x in c.

(** [x.get(name)]: [None] when the attribute is missing. *)
Fixpoint lookup (name : string) (a : list (string * string)) : option string :=
  match a with
  | [] => None
  | (k, v) :: t => if String.eqb k name then Some v else lookup name t
  end.

Definition get (x : Element) (name : string) : option string :=
  lookup name (attrib x).

(** [x[i]] *)
Definition item (x : Element) (i : nat) : result Element :=
  match nth_error (children x) i with
  | Some c => Ok c
  | None => Raise IndexError
  end.

End Xml.

(** ** The outside world *)

Record datetime : Type := mkDatetime {
  year : Z; month : Z; day : Z;
  hour : Z; minute : Z; second : Z; microsecond : Z
}.

Inductive param : Type :=
| PStr (s : string)
| PInt (z : Z).

Record Response : Type := mkResponse {
  status_code : Z;
  content : string
}.

Record World : Type := mkWorld {
  (** the constant of the module [bgg_api], which is not part of the sources *)
  BASE_URL : string;
  (** [requests.get(url, params=params)] *)
  requests_get : string -> list (string * param) -> result Response;
  (** [etree.fromstring(content)] *)
  etree_fromstring : string -> result Element;
  (** [datetime.fromisoformat(s)] on a [str] *)
  datetime_fromisoformat : string -> result datetime;
  (** [int(s)] on a [str] *)
  int_of_str : string -> result Z
}.

(** ** Data of the module *)

Definition WON_TEXT : string := "Won".
Definition LOST_TEXT : string := "Lost".

(** A play is a dict.  [fetch_data] always sets ['date'] and ['length'];
    the keys ['game_id'], ['game_name'] and ['comment'] are present only
    when the matching child node was met ([None] is a missing key).  The
    values of ['game_name'] and ['comment'] are a [str] or Python's [None]
    (the inner option). *)
Module Play.
Record t : Type := mk {
  date : datetime;
  game_id : option Z;
  game_name : option (option string);
  comment : option (option string);
  length : Z
}.
End Play.

Definition play : Type := Play.t.

(** The object: [self.data] and [self.username]. *)
Record BggPlays : Type := mkBggPlays {
  data : option (list play);
  username : string
}.

(** [BggPlays(username)] *)
Definition init (name : string) : BggPlays :=
  {| data := None; username := name |}.

(** The dict returned by [game_info_by_id]; [most_played_game] adds the
    key ['time'] to it. *)
Record game_info : Type := mkGameInfo {
  name : option string;
  thumbnail : option string;
  time : option Z
}.

(** An element of the list returned by [latest_played_games]. *)
Record latest_entry : Type := mkLatest {
  l_name : option string;
  l_date : datetime;
  l_thumbnail : option string
}.

(** The dict returned by [cooperative_game_statistics]. *)
Record coop_statistics : Type := mkCoop {
  wins : nat;
  losses : nat;
  win_percentage : Z
}.

Definition NO_DATA : string :=
  "No data found for latest played games. Maybe it has not been fetched yet.".

(** ** The methods of [BggPlays] *)

Section Methods.

Variable W : World.

(** [BggPlays.request_data(uri, params)].  A status other than 200 is
    only logged ("Fetching failed! Status code ..."); both branches go
    on to parse the body. *)
Definition request_data (uri : string) (params : list (string * param))
  : result Element :=
  let url := String.append (BASE_URL W) uri in
  response <- requests_get W url params ;;
  if negb (status_code response =? 200)
  then etree_fromstring W (content response)
  else etree_fromstring W (content response).

(** The loop of [_get_thumbnail]: the text of the first node whose tag
    is ['thumbnail']; falling off the loop returns [None]. *)
Fixpoint first_thumbnail (nodes : list Element) : option string :=
  match nodes with
  | [] => None
  | node :: t =>
      if String.eqb (Xml.tag node) "thumbnail" then Xml.text node
      else first_thumbnail t
  end.

(** [BggPlays._get_thumbnail(game_id)] *)
Definition _get_thumbnail (game_id : Z) : result (option string) :=
  xml_root <- request_data "thing" [("id", PInt game_id)] ;;
  first <- Xml.item xml_root 0 ;;
  Ok (first_thumbnail (Xml.children first)).

(** [int(x.get(name))]: [int(None)] is a [TypeError]. *)
Definition int_of_attr (v : option string) : result Z :=
  match v with
  | None => Raise TypeError
  | Some s => int_of_str W s
  end.

(** [datetime.fromisoformat(x.get('date'))] *)
Definition date_of_attr (v : option string) : result datetime :=
  match v with
  | None => Raise TypeError
  | Some s => datetime_fromisoformat W s
  end.

(** The keys the inner loop of [fetch_data] may set. *)
Record partial_play : Type := mkPartial {
  pp_game_id : option Z;
  pp_game_name : option (option string);
  pp_comment : option (option string)
}.

(** The inner loop of [fetch_data] over the children of one play node.
    The comment is read from [xml_play[1]], the second child of the
    play, whatever child carries the tag ['comments']. *)
Fixpoint parse_children (xml_play : Element) (nodes : list Element)
                        (acc : partial_play) : result partial_play :=
  match nodes with
  | [] => Ok acc
  | xml_play_child :: t =>
      if String.eqb (Xml.tag xml_play_child) "item" then
        gid <- int_of_attr (Xml.get xml_play_child "objectid") ;;
        parse_children xml_play t
          {| pp_game_id := Some gid;
             pp_game_name := Some (Xml.get xml_play_child "name");
             pp_comment := pp_comment acc |}
      else if String.eqb (Xml.tag xml_play_child) "comments" then
        second <- Xml.item xml_play 1 ;;
        parse_children xml_play t
          {| pp_game_id := pp_game_id acc;
             pp_game_name := pp_game_name acc;
             pp_comment := Some (Xml.text second) |}
      else parse_children xml_play t acc
  end.

(** The body of the outer loop of [fetch_data]: one play node. *)
Definition parse_play (xml_play : Element) : result play :=
  d <- date_of_attr (Xml.get xml_play "date") ;;
  acc <- parse_children xml_play (Xml.children xml_play)
           {| pp_game_id := None; pp_game_name := None; pp_comment := None |} ;;
  len <- int_of_attr (Xml.get xml_play "length") ;;
  Ok {| Play.date := d;
        Play.game_id := pp_game_id acc;
        Play.game_name := pp_game_name acc;
        Play.comment := pp_comment acc;
        Play.length := len |}.

(** What [fetch_data] computes before it assigns [self.data]. *)
Definition fetch_plays (name : string) : result (list play) :=
  xml_root <- request_data "plays" [("username", PStr name)] ;;
  mapM parse_play (Xml.children xml_root).

(** [self.fetch_data()]: the outcome and the object afterwards.  An
    exception leaves the object as it was. *)
Definition fetch_data (self : BggPlays) : result unit * BggPlays :=
  match fetch_plays (username self) with
  | Ok plays => (Ok tt, {| data := Some plays; username := username self |})
  | Raise e => (Raise e, self)
  end.

(** One element of the comprehension of [latest_played_games]. *)
Definition latest_entry_of (p : play) : result latest_entry :=
  n <- Py.getitem "game_name" (Play.game_name p) ;;
  gid <- Py.getitem "game_id" (Play.game_id p) ;;
  th <- _get_thumbnail gid ;;
  Ok {| l_name := n; l_date := Play.date p; l_thumbnail := th |}.

Definition num_games : nat := 10.

(** [self.latest_played_games()] *)
Definition latest_played_games (self : BggPlays) : result (list latest_entry) :=
  match data self with
  | None => Raise (Exception NO_DATA)
  | Some plays => mapM latest_entry_of (firstn num_games plays)
  end.

(** ['comment' in play and text in play['comment']]; [text in None] is
    a [TypeError]. *)
Definition comment_has (marker : string) (p : play) : result bool :=
  match Play.comment p with
  | None => Ok false
  | Some None => Raise TypeError
  | Some (Some c) => Ok (Py.str_in marker c)
  end.

(** The last two statements of [cooperative_game_statistics]. *)
Definition coop_result (w l : nat) : result coop_statistics :=
  q <- Py.truediv w (w + l) ;;
  let percentage := PrimFloat.mul q (Py.float_of_nat 100) in
  pct <- Py.int_of_float percentage ;;
  Ok {| wins := w; losses := l; win_percentage := pct |}.

(** [self.cooperative_game_statistics()] *)
Definition cooperative_game_statistics (self : BggPlays) : result coop_statistics :=
  match data self with
  | None => Raise (Exception NO_DATA)
  | Some plays =>
      w <- Py.count_if (comment_has WON_TEXT) plays ;;
      l <- Py.count_if (comment_has LOST_TEXT) plays ;;
      coop_result w l
  end.

(** [next(g for g in plays if g['game_id'] == game_id)] *)
Fixpoint next_with_id (game_id : Z) (plays : list play) : result play :=
  match plays with
  | [] => Raise StopIteration
  | g :: t =>
      gid <- Py.getitem "game_id" (Play.game_id g) ;;
      if gid =? game_id then Ok g else next_with_id game_id t
  end.

(** [self.game_info_by_id(game_id)].  There is no test of [self.data]
    here: iterating over [None] is a [TypeError]. *)
Definition game_info_by_id (self : BggPlays) (game_id : Z) : result game_info :=
  match data self with
  | None => Raise TypeError
  | Some plays =>
      p <- next_with_id game_id plays ;;
      n <- Py.getitem "game_name" (Play.game_name p) ;;
      gid <- Py.getitem "game_id" (Play.game_id p) ;;
      th <- _get_thumbnail gid ;;
      Ok {| name := n; thumbnail := th; time := None |}
  end.

(** The key of [sorted] and [groupby], with the play it comes from. *)
Definition keyed (p : play) : result (Z * play) :=
  gid <- Py.getitem "game_id" (Play.game_id p) ;;
  Ok (gid, p).

(** The loop that fills [summed]. *)
Definition sum_groups (grouped : list (Z * list play)) : list (Z * Z) :=
  map (fun kg => (fst kg, Py.sum Play.length (snd kg))) grouped.

(** [most_played_game] up to the call of [max]: the pair
    [(game_id, summed length)] named [most_played]. *)
Definition most_played (plays : list play) : result (Z * Z) :=
  decorated <- mapM keyed plays ;;
  let grouped := Py.groupby (Py.sorted decorated) in
  Py.max (sum_groups grouped).

(** [self.most_played_game()] *)
Definition most_played_game (self : BggPlays) : result game_info :=
  match data self with
  | None => Raise (Exception NO_DATA)
  | Some plays =>
      mp <- most_played plays ;;
      game <- game_info_by_id self (fst mp) ;;
      Ok {| name := name game; thumbnail := thumbnail game; time := Some (snd mp) |}
  end.

End Methods.

(** ** A concrete world

    A remote that serves three plays of two games and a thumbnail per
    game.  The parser table maps each body the remote serves to its
    tree. *)

Module Demo.

Definition plays_body : string :=
  "<plays><play date='2018-06-22' length='30'><item name='Pandemic' objectid='1'/><comments>Won the game</comments></play><play date='2018-06-21' length='10'><item name='Hanabi' objectid='2'/><comments>Lost badly</comments></play><play date='2018-06-20' length='20'><item name='Pandemic' objectid='1'/><comments>Won again</comments></play></plays>".

Definition play_node (d len nm oid c : string) : Element :=
  mkElement "play" [("date", d); ("length", len)] None
    [ mkElement "item" [("name", nm); ("objectid", oid)] None [];
      mkElement "comments" [] (Some c) [] ].

Definition plays_tree : Element :=
  mkElement "plays" [] None
    [ play_node "2018-06-22" "30" "Pandemic" "1" "Won the game";
      play_node "2018-06-21" "10" "Hanabi" "2" "Lost badly";
      play_node "2018-06-20" "20" "Pandemic" "1" "Won again" ].

Definition thing_body (url : string) : string :=
  "<items><item><thumbnail>" ++ url ++ "</thumbnail></item></items>".

Definition thing_tree (url : string) : Element :=
  mkElement "items" [] None
    [ mkElement "item" [] None [ mkElement "thumbnail" [] (Some url) [] ] ].

Definition thumb1 : string := "http://img.example.com/1.png".
Definition thumb2 : string := "http://img.example.com/2.png".

Definition empty_body : string := "<plays></plays>".
Definition empty_tree : Element := mkElement "plays" [] None [].

Definition base : string := "https://www.boardgamegeek.com/xmlapi2/".

Definition get (url : string) (params : list (string * param)) : result Response :=
  if String.eqb url (base ++ "plays") then
    Ok {| status_code := 200; content := plays_body |}
  else if String.eqb url (base ++ "thing") then
    match params with
    | [(_, PInt 1)] => Ok {| status_code := 200; content := thing_body thumb1 |}
    | [(_, PInt 2)] => Ok {| status_code := 200; content := thing_body thumb2 |}
    | _ => Ok {| status_code := 404; content := "Not Found" |}
    end
  else Raise RequestException.

Definition fromstring (body : string) : result Element :=
  if String.eqb body plays_body then Ok plays_tree
  else if String.eqb body (thing_body thumb1) then Ok (thing_tree thumb1)
  else if String.eqb body (thing_body thumb2) then Ok (thing_tree thumb2)
  else if String.eqb body empty_body then Ok empty_tree
  else Raise XMLSyntaxError.

Definition fromisoformat (s : string) : result datetime :=
  if String.eqb s "2018-06-22" then Ok (mkDatetime 2018 6 22 0 0 0 0)
  else if String.eqb s "2018-06-21" then Ok (mkDatetime 2018 6 21 0 0 0 0)
  else if String.eqb s "2018-06-20" then Ok (mkDatetime 2018 6 20 0 0 0 0)
  else Raise ValueError.

(** Decimal digits only, which is all the demo bodies contain. *)
Fixpoint digits (s : string) (acc : Z) : result Z :=
  match s with
  | EmptyString => Ok acc
  | String c t =>
      let n := Z.of_nat (nat_of_ascii c) - 48 in
      if (0 <=? n) && (n <=? 9) then digits t (10 * acc + n)
      else Raise ValueError
  end.

Definition int (s : string) : result Z :=
  match s with
  | EmptyString => Raise ValueError
  | _ => digits s 0
  end.

Definition world : World :=
  {| BASE_URL := base;
     requests_get := get;
     etree_fromstring := fromstring;
     datetime_fromisoformat := fromisoformat;
     int_of_str := int |}.

(** The same remote answering the plays request with a status that is
    not 200 and a well-formed body without plays. *)
Definition failing_get (url : string) (params : list (string * param))
  : result Response :=
  if String.eqb url (base ++ "plays") then
    Ok {| status_code := 500; content := empty_body |}
  else get url params.

Definition failing_world : World :=
  {| BASE_URL := base;
     requests_get := failing_get;
     etree_fromstring := fromstring;
     datetime_fromisoformat := fromisoformat;
     int_of_str := int |}.

(** The object after one fetch from [world]. *)
Definition fetched : BggPlays := snd (fetch_data world (init "demo")).

(** A play of game 1 with the given comment. *)
Definition commented (c : string) : play :=
  {| Play.date := mkDatetime 2018 6 22 0 0 0 0;
     Play.game_id := Some 1;
     Play.game_name := Some (Some "Pandemic");
     Play.comment := Some (Some c);
     Play.length := 30 |}.

(** Twenty-nine wins and seventy-one losses. *)
Definition hundred_plays : list play :=
  repeat (commented "Won") 29 ++ repeat (commented "Lost") 71.

End Demo.

(** ** What the statements speak about *)

(** The play carries the game id [gid]. *)
Definition has_id (gid : Z) (p : play) : bool :=
  match Play.game_id p with
  | Some g => g =? gid
  | None => false
  end.

(** The summed length of the plays of game [gid]. *)
Definition total_length (gid : Z) (plays : list play) : Z :=
  Py.sum Play.length (filter (has_id gid) plays).

(** The game id occurs in the sequence. *)
Definition played (gid : Z) (plays : list play) : Prop :=
  exists p, In p plays /\ Play.game_id p = Some gid.

(** The comment of the play is missing or is a text. *)
Definition comment_is_text (p : play) : Prop :=
  Play.comment p <> Some None.

(** The comment of the play is a text that contains the marker. *)
Definition mentions (marker : string) (p : play) : Prop :=
  exists c, Play.comment p = Some (Some c) /\ Py.str_in marker c = true.

(** The exact quotient [100 * w / (w + l)], rounded toward zero. *)
Definition exact_percentage (w l : nat) : Z :=
  Z.quot (100 * Z.of_nat w) (Z.of_nat (w + l)).

(** The order [sorted] establishes on a decorated list. *)
Definition key_le {A : Type} (a b : Z * A) : Prop := fst a <= fst b.

(** The elements of a decorated list filed under key [k], in order. *)
Definition with_key {A : Type} (k : Z) (s : list (Z * A)) : list A :=
  map snd (filter (fun kx => fst kx =? k) s).

(** ** The page of [server.py] *)

Section Server.

Variable W : World.

(** [flask.render_template(template, games=games, name=name)] *)
Variable render_template : string -> list latest_entry -> string -> result string.

(** [get_root(name)], the handler of the routes ['/'] and ['/<name>']:
    a fresh object per request, one fetch, then the latest games. *)
Definition get_root (name : option string) : result string :=
  match name with
  | None => Ok "Please give the username to fetch data for"
  | Some n =>
      let fetched := fetch_data W (init n) in
      _ <- fst fetched ;;
      games <- latest_played_games W (snd fetched) ;;
      render_template "full_statistics.html" games n
  end.

End Server.

(** ** More vocabulary for the statements *)

(** [sub] occurs in [s] as a run of consecutive characters. *)
Definition substring_of (sub s : string) : Prop :=
  exists pre post, s = String.append pre (String.append sub post).

(** The comment of the play is a text in which the marker occurs. *)
Definition says (marker : string) (p : play) : bool :=
  match Play.comment p with
  | Some (Some c) => Py.str_in marker c
  | _ => false
  end.

(** The world [W] with the status of every response replaced by what
    [status] gives for the request. *)
Definition with_status (status : string -> list (string * param) -> Z)
           (W : World) : World :=
  {| BASE_URL := BASE_URL W;
     requests_get := fun url params =>
       r <- requests_get W url params ;;
       Ok {| status_code := status url params; content := content r |};
     etree_fromstring := etree_fromstring W;
     datetime_fromisoformat := datetime_fromisoformat W;
     int_of_str := int_of_str W |}.

(** The node carries the tag. *)
Definition tagged (t : string) (x : Element) : Prop := Xml.tag x = t.

(** ** More sample data *)

Module Sample.

(** A response whose second play node has no date attribute. *)
Definition broken_tree : Element :=
  mkElement "plays" [] None
    [ Demo.play_node "2018-06-22" "30" "Pandemic" "1" "Won the game";
      mkElement "play" [("length", "10")] None
        [ mkElement "item" [("name", "Hanabi"); ("objectid", "2")] None [] ] ].

(** A remote that serves [broken_tree] for every request. *)
Definition broken_world : World :=
  {| BASE_URL := Demo.base;
     requests_get := fun _ _ => Ok {| status_code := 200; content := "broken" |};
     etree_fromstring := fun _ => Ok broken_tree;
     datetime_fromisoformat := Demo.fromisoformat;
     int_of_str := Demo.int |}.

(** A play without the keys of the item node. *)
Definition anonymous : play :=
  {| Play.date := mkDatetime 2018 6 22 0 0 0 0;
     Play.game_id := None;
     Play.game_name := None;
     Play.comment := None;
     Play.length := 45 |}.

(** A template that lists the game names after the user name. *)
Definition render (template : string) (games : list latest_entry)
           (user : string) : result string :=
  Ok (String.concat ";"
        (user :: map (fun g => match l_name g with
                               | Some n => n
                               | None => "None"
                               end) games)).

End Sample.

(** ** Facts about the built-ins *)

Section PyFacts.

Context {A : Type}.

Lemma sum_from (f : A -> Z) (l : list A) (acc : Z) :
  fold_left (fun a x => a + f x) l acc = acc + Py.sum f l.
Proof.
  unfold Py.sum. revert acc.
  induction l as [|x t IH]; intros acc; simpl.
  - lia.
  - rewrite (IH (acc + f x)), (IH (f x)). lia.
Qed.

Lemma sum_nil (f : A -> Z) : Py.sum f [] = 0.
Proof. reflexivity. Qed.

Lemma sum_cons (f : A -> Z) (x : A) (l : list A) :
  Py.sum f (x :: l) = f x + Py.sum f l.
Proof.
  unfold Py.sum at 1. simpl. rewrite sum_from. lia.
Qed.

Lemma sum_perm (f : A -> Z) (l l' : list A) :
  Permutation l l' -> Py.sum f l = Py.sum f l'.
Proof.
  induction 1; rewrite ?sum_cons; lia.
Qed.

(** *** Sorting *)

Lemma insert_perm (x : Z * A) (l : list (Z * A)) :
  Permutation (Py.insert x l) (x :: l).
Proof.
  induction l as [|y t IH]; simpl.
  - reflexivity.
  - destruct (fst x <=? fst y).
    + reflexivity.
    + rewrite IH. apply perm_swap.
Qed.

Lemma sorted_perm (l : list (Z * A)) : Permutation (Py.sorted l) l.
Proof.
  induction l as [|x t IH]; simpl.
  - reflexivity.
  - rewrite insert_perm. now constructor.
Qed.

Lemma insert_sorted (x : Z * A) (l : list (Z * A)) :
  StronglySorted key_le l -> StronglySorted key_le (Py.insert x l).
Proof.
  induction 1 as [|y t Hs IH Hy]; simpl.
  - repeat constructor.
  - destruct (Z.leb_spec (fst x) (fst y)) as [Hle|Hgt].
    + constructor.
      * now constructor.
      * constructor; [exact Hle|].
        rewrite Forall_forall in Hy |- *. intros z Hz.
        specialize (Hy z Hz). unfold key_le in *. lia.
    + constructor; [exact IH|].
      rewrite Forall_forall in Hy |- *. intros z Hz.
      apply (Permutation_in _ (insert_perm x t)) in Hz.
      destruct Hz as [<-|Hz]; [unfold key_le; lia|now apply Hy].
Qed.

Lemma sorted_sorted (l : list (Z * A)) : StronglySorted key_le (Py.sorted l).
Proof.
  induction l as [|x t IH]; simpl.
  - constructor.
  - now apply insert_sorted.
Qed.

End PyFacts.

Section GroupFacts.

Context {A : Type}.

Lemma with_key_absent (k : Z) (s : list (Z * A)) :
  (forall y, In y s -> fst y <> k) -> with_key k s = [].
Proof.
  unfold with_key. induction s as [|y t IH]; intros H; simpl.
  - reflexivity.
  - destruct (Z.eqb_spec (fst y) k) as [E|_].
    + exfalso. apply (H y); [now left|exact E].
    + apply IH. intros z Hz. apply H. now right.
Qed.

(** On a list sorted by key, [groupby] yields one group per key, keys
    strictly increasing, each group holding all elements of its key. *)
Lemma groupby_sorted (s : list (Z * A)) :
  StronglySorted key_le s ->
  StronglySorted Z.lt (map fst (Py.groupby s)) /\
  (forall k g, In (k, g) (Py.groupby s) ->
               g = with_key k s /\ In k (map fst s)) /\
  (forall k, In k (map fst s) -> In k (map fst (Py.groupby s))) /\
  (forall kx t, s = kx :: t ->
                exists g rest, Py.groupby s = (fst kx, g) :: rest).
Proof.
  induction 1 as [|[k x] t Hs IH Hall].
  - simpl. repeat split; try constructor; try contradiction; discriminate.
  - destruct IH as (S1 & S2 & S3 & S4).
    rewrite Forall_forall in Hall.
    assert (Hlow : forall k0, In k0 (map fst t) -> k <= k0).
    { intros k0 Hk0. apply in_map_iff in Hk0 as (y & <- & Hy).
      exact (Hall y Hy). }
    simpl. destruct (Py.groupby t) as [|[k' g] rest] eqn:E.
    + assert (t = []) as ->.
      { destruct t as [|kx' t']; [reflexivity|].
        destruct (S4 kx' t' eq_refl) as (? & ? & ?). discriminate. }
      refine (conj _ (conj _ (conj _ _))).
      * simpl. repeat constructor.
      * intros k0 g0 [H|[]]. injection H as <- <-. split.
        -- unfold with_key. simpl. now rewrite Z.eqb_refl.
        -- now left.
      * intros k0 [<-|[]]. now left.
      * intros kx t0 H. injection H as <- <-. now eexists _, _.
    + simpl in S1. apply StronglySorted_inv in S1 as [S1 S1h].
      rewrite Forall_forall in S1h.
      assert (Hk' : In k' (map fst t)) by (apply (S2 k' g); now left).
      assert (Hkk' : k <= k') by now apply Hlow.
      destruct (Z.eqb_spec k k') as [->|Hne].
      * refine (conj _ (conj _ (conj _ _))).
        -- simpl. constructor; [exact S1|now apply Forall_forall].
        -- intros k0 g0 [H|H].
           ++ injection H as <- <-. split; [|now left].
              unfold with_key. simpl.
              rewrite Z.eqb_refl. simpl. f_equal.
              apply (S2 k' g). now left.
           ++ assert (Hlt : k' < k0).
              { apply S1h. apply in_map_iff. now exists (k0, g0). }
              split.
              ** unfold with_key. simpl.
                 destruct (Z.eqb_spec k' k0) as [->|_]; [lia|].
                 apply (S2 k0 g0). now right.
              ** right. apply (S2 k0 g0). now right.
        -- intros k0 [<-|Hk0]; [now left|].
           exact (S3 k0 Hk0).
        -- intros kx t0 H. injection H as <- <-. now eexists _, _.
      * assert (Hlt : k < k') by lia.
        assert (Hkeys : forall k0, In k0 (map fst ((k', g) :: rest)) -> k < k0).
        { intros k0 [<-|Hk0]; [exact Hlt|]. specialize (S1h k0 Hk0). lia. }
        refine (conj _ (conj _ (conj _ _))).
        -- simpl. constructor.
           ++ constructor; [exact S1|now apply Forall_forall].
           ++ apply Forall_forall. intros k0 Hk0. now apply Hkeys.
        -- intros k0 g0 [H|H].
           ++ injection H as <- <-. split; [|now left].
              unfold with_key. simpl.
              rewrite Z.eqb_refl. simpl. f_equal.
              symmetry. apply (with_key_absent k t). intros y Hy Ey.
              assert (k < fst y); [|lia].
              apply Hkeys. apply S3. now apply in_map.
           ++ assert (k < k0).
              { apply Hkeys. apply in_map_iff. now exists (k0, g0). }
              split.
              ** unfold with_key. simpl.
                 destruct (Z.eqb_spec k k0) as [->|_]; [lia|].
                 now apply (S2 k0 g0).
              ** right. now apply (S2 k0 g0).
        -- intros k0 [<-|Hk0]; [now left|].
           right. exact (S3 k0 Hk0).
        -- intros kx t0 H. injection H as <- <-. now eexists _, _.
Qed.

End GroupFacts.

Section MaxFacts.

(** [max_from] splits the list at the element it returns: what comes
    before is strictly smaller, what comes after is not larger. *)
Lemma max_from_split (t : list (Z * Z)) :
  forall best,
  exists pre post,
    best :: t = pre ++ Py.max_from best t :: post /\
    (forall x, In x pre -> snd x < snd (Py.max_from best t)) /\
    (forall x, In x post -> snd x <= snd (Py.max_from best t)).
Proof.
  induction t as [|x t IH]; intros best; simpl.
  - exists [], []. repeat split; intros ? [].
  - destruct (Z.ltb_spec (snd best) (snd x)) as [Hlt|Hge].
    + destruct (IH x) as (pre & post & E & Hpre & Hpost).
      exists (best :: pre), post. split; [simpl; now rewrite E|].
      split; [|exact Hpost].
      intros y [<-|Hy]; [|now apply Hpre].
      destruct pre as [|z pre]; simpl in E; injection E as E1 E2.
      * rewrite <- E1. exact Hlt.
      * subst z. specialize (Hpre x (or_introl eq_refl)). lia.
    + destruct (IH best) as (pre & post & E & Hpre & Hpost).
      destruct pre as [|z pre]; simpl in E; injection E as E1 E2.
      * exists [], (x :: post). rewrite <- E1 in *. subst t.
        split; [reflexivity|]. split; [intros ? []|].
        intros y [<-|Hy]; [exact Hge|now apply Hpost].
      * subst z. exists (best :: x :: pre), post.
        split; [simpl; do 2 f_equal; exact E2|]. split; [|exact Hpost].
        assert (Hb := Hpre best (or_introl eq_refl)).
        intros y [<-|[<-|Hy]]; [exact Hb|lia|].
        apply Hpre. now right.
Qed.

Lemma sorted_after (l1 l2 : list Z) (a : Z) :
  StronglySorted Z.lt (l1 ++ a :: l2) -> forall x, In x l2 -> a < x.
Proof.
  induction l1 as [|y l1 IH]; simpl; intros H x Hx.
  - apply StronglySorted_inv in H as [_ H].
    rewrite Forall_forall in H. now apply H.
  - apply StronglySorted_inv in H as [H _]. now apply IH.
Qed.

(** On a non-empty list with strictly increasing first components,
    [max] returns an element with the largest second component and,
    among those, the smallest first component. *)
Lemma max_first (L : list (Z * Z)) :
  StronglySorted Z.lt (map fst L) ->
  L <> [] ->
  exists r, Py.max L = Ok r /\ In r L /\
            (forall x, In x L -> snd x <= snd r) /\
            (forall x, In x L -> snd x = snd r -> fst r <= fst x).
Proof.
  intros Hs Hne. destruct L as [|b t]; [contradiction|].
  destruct (max_from_split t b) as (pre & post & E & Hpre & Hpost).
  exists (Py.max_from b t). split; [reflexivity|].
  set (r := Py.max_from b t) in *. clearbody r.
  rewrite E in *. rewrite map_app in Hs. simpl in Hs.
  split; [apply in_or_app; right; now left|]. split.
  - intros x Hx. apply in_app_or in Hx as [Hx|[<-|Hx]].
    + specialize (Hpre x Hx). lia.
    + lia.
    + now apply Hpost.
  - intros x Hx Heq. apply in_app_or in Hx as [Hx|[<-|Hx]].
    + specialize (Hpre x Hx). lia.
    + lia.
    + assert (fst r < fst x); [|lia].
      apply (sorted_after _ _ _ Hs). now apply in_map.
Qed.

End MaxFacts.

(** ** Facts about the methods *)

Section MostPlayedFacts.

Lemma filter_perm {A : Type} (f : A -> bool) (l l' : list A) :
  Permutation l l' -> Permutation (filter f l) (filter f l').
Proof.
  induction 1 as [|x l l' _ IH|x y l|l l' l'' _ IH1 _ IH2]; simpl.
  - constructor.
  - destruct (f x); [now constructor|exact IH].
  - destruct (f x), (f y); try reflexivity. apply perm_swap.
  - now transitivity (filter f l').
Qed.

Lemma with_key_perm {A : Type} (k : Z) (s s' : list (Z * A)) :
  Permutation s s' -> Permutation (with_key k s) (with_key k s').
Proof.
  intros H. unfold with_key. apply Permutation_map. now apply filter_perm.
Qed.

(** Decorating succeeds when every play has a game id. *)
Lemma mapM_keyed (plays : list play) :
  Forall (fun p => Play.game_id p <> None) plays ->
  exists dec,
    mapM keyed plays = Ok dec /\
    map snd dec = plays /\
    Forall (fun kp => Play.game_id (snd kp) = Some (fst kp)) dec.
Proof.
  induction 1 as [|p t Hp _ (dec & E & Hm & Hd)].
  - exists []. repeat split. constructor.
  - destruct (Play.game_id p) as [gid|] eqn:Eg; [|contradiction].
    exists ((gid, p) :: dec). simpl. unfold keyed at 1.
    rewrite Eg. simpl. rewrite E. simpl.
    repeat split; [now rewrite Hm|]. now constructor.
Qed.

Lemma with_key_decorated (k : Z) (dec : list (Z * play)) :
  Forall (fun kp => Play.game_id (snd kp) = Some (fst kp)) dec ->
  with_key k dec = filter (has_id k) (map snd dec).
Proof.
  unfold with_key. induction 1 as [|[k0 p] t Hp _ IH]; simpl in *.
  - reflexivity.
  - unfold has_id at 1. rewrite Hp.
    destruct (k0 =? k); simpl; now rewrite IH.
Qed.

Lemma played_decorated (k : Z) (dec : list (Z * play)) :
  Forall (fun kp => Play.game_id (snd kp) = Some (fst kp)) dec ->
  (played k (map snd dec) <-> In k (map fst dec)).
Proof.
  intros Hd. rewrite Forall_forall in Hd. unfold played. split.
  - intros (p & Hp & Ep). apply in_map_iff in Hp as ([k0 p0] & <- & Hin).
    specialize (Hd _ Hin). simpl in *.
    assert (k0 = k) as <- by congruence.
    apply in_map_iff. now exists (k0, p0).
  - intros Hk. apply in_map_iff in Hk as ([k0 p0] & <- & Hin).
    exists p0. split; [apply in_map_iff; now exists (k0, p0)|].
    exact (Hd _ Hin).
Qed.

(** The pair chosen by [most_played]: a game that was played, with its
    summed length, which no other game exceeds; among the games with
    that sum it has the smallest id. *)
Lemma most_played_spec (plays : list play) :
  plays <> [] ->
  Forall (fun p => Play.game_id p <> None) plays ->
  exists gid,
    most_played plays = Ok (gid, total_length gid plays) /\
    played gid plays /\
    (forall g, played g plays -> total_length g plays <= total_length gid plays) /\
    (forall g, played g plays ->
               total_length g plays = total_length gid plays -> gid <= g).
Proof.
  intros Hne Hall.
  destruct (mapM_keyed plays Hall) as (dec & E & Hm & Hd).
  unfold most_played. rewrite E. simpl.
  set (s := Py.sorted dec).
  assert (Hperm : Permutation s dec) by apply sorted_perm.
  destruct (groupby_sorted s (sorted_sorted dec)) as (S1 & S2 & S3 & S4).
  assert (Htotal : forall k, Py.sum Play.length (with_key k s) = total_length k plays).
  { intros k. rewrite (sum_perm _ _ _ (with_key_perm k _ _ Hperm)).
    rewrite (with_key_decorated k dec Hd), Hm. reflexivity. }
  assert (Hkeys : forall k, played k plays <-> In k (map fst s)).
  { intros k. rewrite <- Hm, (played_decorated k dec Hd). split; intros H.
    - apply (Permutation_in _ (Permutation_sym (Permutation_map fst Hperm)) H).
    - apply (Permutation_in _ (Permutation_map fst Hperm) H). }
  assert (HL : forall x, In x (sum_groups (Py.groupby s)) ->
                         snd x = total_length (fst x) plays /\ played (fst x) plays).
  { intros x Hx. apply in_map_iff in Hx as ([k g] & <- & Hin). simpl.
    destruct (S2 k g Hin) as [-> Hk]. split; [apply Htotal|now apply Hkeys]. }
  assert (HLin : forall k, played k plays ->
                           In (k, total_length k plays) (sum_groups (Py.groupby s))).
  { intros k Hk. apply Hkeys, S3, in_map_iff in Hk as ([k0 g] & Ek & Hin).
    simpl in Ek. subst k0. apply in_map_iff. exists (k, g). split; [|exact Hin].
    simpl. destruct (S2 k g Hin) as [-> _]. now rewrite Htotal. }
  assert (Hfst : map fst (sum_groups (Py.groupby s)) = map fst (Py.groupby s)).
  { unfold sum_groups. rewrite map_map. reflexivity. }
  destruct (max_first (sum_groups (Py.groupby s))) as (r & Er & Hr & Hmax & Htie).
  - now rewrite Hfst.
  - destruct s as [|kx t] eqn:Es.
    + apply Permutation_nil in Hperm. subst dec. simpl in Hm. congruence.
    + destruct (S4 kx t eq_refl) as (g & rest & ->). discriminate.
  - destruct (HL r Hr) as [Hv Hp]. exists (fst r). rewrite <- Hv.
    rewrite Er. destruct r as [k v]. simpl in *.
    split; [reflexivity|]. split; [exact Hp|]. split.
    + intros g Hg. exact (Hmax _ (HLin g Hg)).
    + intros g Hg Heq. exact (Htie _ (HLin g Hg) Heq).
Qed.

End MostPlayedFacts.

Section ComprehensionFacts.

Context {A B : Type}.

Lemma mapM_Forall2 (f : A -> result B) (R : A -> B -> Prop) (l : list A) :
  Forall (fun x => exists y, f x = Ok y /\ R x y) l ->
  exists ys, mapM f l = Ok ys /\ Forall2 R l ys.
Proof.
  induction 1 as [|x t (y & Ey & Hy) _ (ys & E & H)].
  - exists []. split; [reflexivity|constructor].
  - exists (y :: ys). simpl. rewrite Ey. simpl. rewrite E. simpl.
    split; [reflexivity|now constructor].
Qed.

Lemma count_if_none (cond : A -> result bool) (l : list A) :
  Forall (fun x => cond x = Ok false) l -> Py.count_if cond l = Ok O.
Proof.
  induction 1 as [|x t Hx _ IH]; simpl.
  - reflexivity.
  - now rewrite Hx, IH.
Qed.

Lemma count_if_total (cond : A -> result bool) (l : list A) :
  Forall (fun x => exists b, cond x = Ok b) l ->
  exists n, Py.count_if cond l = Ok n.
Proof.
  induction 1 as [|x t (b & Hx) _ (n & IH)]; simpl.
  - now exists O.
  - rewrite Hx, IH. simpl. now eexists.
Qed.

(** A matching element adds one to the count of the others. *)
Lemma count_if_insert (cond : A -> result bool) (pre post : list A) (x : A) (n : nat) :
  cond x = Ok true ->
  Py.count_if cond (pre ++ post) = Ok n ->
  Py.count_if cond (pre ++ x :: post) = Ok (S n).
Proof.
  intros Hx. revert n. induction pre as [|y pre IH]; intros n; simpl.
  - intros ->. now rewrite Hx.
  - destruct (cond y) as [b|e]; simpl; [|discriminate].
    destruct (Py.count_if cond (pre ++ post)) as [m|e]; simpl; [|discriminate].
    intros H. rewrite (IH m eq_refl). simpl.
    destruct b; injection H as <-; reflexivity.
Qed.

End ComprehensionFacts.

Section CommentFacts.

Lemma comment_has_absent (marker : string) (p : play) :
  comment_is_text p -> ~ mentions marker p -> comment_has marker p = Ok false.
Proof.
  unfold comment_is_text, mentions, comment_has. intros Ht Hn.
  destruct (Play.comment p) as [[c|]|]; [|congruence|reflexivity].
  destruct (Py.str_in marker c) eqn:E; [|reflexivity].
  exfalso. apply Hn. now exists c.
Qed.

Lemma comment_has_present (marker : string) (p : play) :
  mentions marker p -> comment_has marker p = Ok true.
Proof.
  unfold mentions, comment_has. intros (c & -> & ->). reflexivity.
Qed.

Lemma comment_has_total (marker : string) (p : play) :
  comment_is_text p -> exists b, comment_has marker p = Ok b.
Proof.
  unfold comment_is_text, comment_has. intros Ht.
  destruct (Play.comment p) as [[c|]|]; [now eexists|congruence|now eexists].
Qed.

(** The record built by [coop_result] carries the two tallies. *)
Lemma coop_result_tallies (w l : nat) (r : coop_statistics) :
  coop_result w l = Ok r -> wins r = w /\ losses r = l.
Proof.
  unfold coop_result. destruct (Py.truediv w (w + l)) as [q|e]; simpl; [|discriminate].
  destruct (Py.int_of_float _) as [pct|e]; simpl; [|discriminate].
  intros H. injection H as <-. now split.
Qed.

End CommentFacts.

Section LookupFacts.

(** No play carries the id: the generator is exhausted. *)
Lemma next_with_id_none (gid : Z) (plays : list play) :
  Forall (fun p => exists g, Play.game_id p = Some g /\ g <> gid) plays ->
  next_with_id gid plays = Raise StopIteration.
Proof.
  induction 1 as [|p t (g & Eg & Hg) _ IH]; simpl.
  - reflexivity.
  - rewrite Eg. simpl. destruct (Z.eqb_spec g gid); [contradiction|exact IH].
Qed.

(** The first play that carries the id is the one returned. *)
Lemma next_with_id_first (gid : Z) (pre post : list play) (p : play) :
  Forall (fun p => exists g, Play.game_id p = Some g /\ g <> gid) pre ->
  Play.game_id p = Some gid ->
  next_with_id gid (pre ++ p :: post) = Ok p.
Proof.
  intros Hpre Hp. induction Hpre as [|q t (g & Eg & Hg) _ IH]; simpl.
  - rewrite Hp. simpl. now rewrite Z.eqb_refl.
  - rewrite Eg. simpl. destruct (Z.eqb_spec g gid); [contradiction|exact IH].
Qed.

(** The status of the response has no part in the result. *)
Lemma request_data_any_status (W : World) (uri : string)
      (params : list (string * param)) (response : Response) :
  requests_get W (String.append (BASE_URL W) uri) params = Ok response ->
  request_data W uri params = etree_fromstring W (content response).
Proof.
  intros H. unfold request_data. rewrite H. simpl.
  now destruct (negb (status_code response =? 200)).
Qed.

End LookupFacts.

(** ** The claims *)

(** C1.  On a fetched, non-empty sequence whose plays all carry a game id,
    [most_played_game] picks a game that was played, reports the sum of
    the lengths of its plays, no game has a larger sum, and among the
    games with that sum it is the one with the smallest id; the answer is
    the info of that game with the sum under ['time'].  For three plays
    of games 1, 2, 1 with lengths 30, 10, 20 the choice is game 1 with
    50 minutes. *)
Theorem most_played_game_maximal (W : World) (self : BggPlays) (plays : list play) :
  data self = Some plays ->
  plays <> [] ->
  Forall (fun p => Play.game_id p <> None) plays ->
  (exists gid,
     played gid plays /\
     most_played plays = Ok (gid, total_length gid plays) /\
     (forall g, played g plays -> total_length g plays <= total_length gid plays) /\
     (forall g, played g plays ->
                total_length g plays = total_length gid plays -> gid <= g) /\
     most_played_game W self =
       (game <- game_info_by_id W self gid ;;
        Ok {| name := name game; thumbnail := thumbnail game;
              time := Some (total_length gid plays) |})) /\
  (forall p1 p2 p3,
     Play.game_id p1 = Some 1 -> Play.length p1 = 30 ->
     Play.game_id p2 = Some 2 -> Play.length p2 = 10 ->
     Play.game_id p3 = Some 1 -> Play.length p3 = 20 ->
     most_played [p1; p2; p3] = Ok (1, 50)).
Proof.
  intros Hd Hne Hall. split.
  - destruct (most_played_spec plays Hne Hall) as (gid & E & Hp & Hmax & Htie).
    exists gid. repeat (split; [assumption|]).
    unfold most_played_game. rewrite Hd, E. reflexivity.
  - intros p1 p2 p3 G1 L1 G2 L2 G3 L3.
    unfold most_played, keyed. simpl. rewrite G1, G2, G3. simpl.
    unfold Py.sum. simpl. rewrite L1, L2, L3. reflexivity.
Qed.

Lemma most_played_game_maximal_witness :
  most_played_game Demo.world Demo.fetched =
    Ok {| name := Some "Pandemic";
          thumbnail := Some Demo.thumb1;
          time := Some 50 |} /\
  exists plays,
    data Demo.fetched = Some plays /\
    exists gid,
      played gid plays /\
      most_played plays = Ok (gid, total_length gid plays) /\
      (forall g, played g plays -> total_length g plays <= total_length gid plays) /\
      (forall g, played g plays ->
                 total_length g plays = total_length gid plays -> gid <= g) /\
      most_played_game Demo.world Demo.fetched =
        (game <- game_info_by_id Demo.world Demo.fetched gid ;;
         Ok {| name := name game; thumbnail := thumbnail game;
               time := Some (total_length gid plays) |}).
Proof.
  split; [reflexivity|].
  eexists. split; [reflexivity|].
  refine (proj1 (most_played_game_maximal Demo.world Demo.fetched _ eq_refl _ _)).
  - discriminate.
  - repeat constructor; discriminate.
Defined.

(** C2.  On a fetched sequence whose comments are texts (or missing) and
    none of which contains the win marker or the loss marker, both
    tallies are zero and [cooperative_game_statistics] raises
    [ZeroDivisionError]. *)
Theorem cooperative_statistics_zero_division (self : BggPlays) (plays : list play) :
  data self = Some plays ->
  Forall comment_is_text plays ->
  (forall p, In p plays -> ~ mentions WON_TEXT p /\ ~ mentions LOST_TEXT p) ->
  Py.count_if (comment_has WON_TEXT) plays = Ok O /\
  Py.count_if (comment_has LOST_TEXT) plays = Ok O /\
  cooperative_game_statistics self = Raise ZeroDivisionError.
Proof.
  intros Hd Ht Hn. rewrite Forall_forall in Ht.
  assert (Hw : Py.count_if (comment_has WON_TEXT) plays = Ok O).
  { apply count_if_none, Forall_forall. intros p Hp.
    apply comment_has_absent; [now apply Ht|now apply Hn]. }
  assert (Hl : Py.count_if (comment_has LOST_TEXT) plays = Ok O).
  { apply count_if_none, Forall_forall. intros p Hp.
    apply comment_has_absent; [now apply Ht|now apply Hn]. }
  repeat split; try assumption.
  unfold cooperative_game_statistics. rewrite Hd, Hw, Hl. reflexivity.
Qed.

Lemma cooperative_statistics_zero_division_witness :
  cooperative_game_statistics
    {| data := Some [Demo.commented "Draw"; Demo.commented "fun"];
       username := "demo" |} = Raise ZeroDivisionError.
Proof.
  refine (proj2 (proj2 (cooperative_statistics_zero_division
            {| data := Some [Demo.commented "Draw"; Demo.commented "fun"];
               username := "demo" |} _ eq_refl _ _))).
  - repeat constructor; discriminate.
  - intros p [<-|[<-|[]]]; split; intros (c & E & H);
      injection E as <-; discriminate H.
Defined.

(** C3.  With 29 wins and 71 losses [cooperative_game_statistics]
    reports 28 percent, while [29 / (29 + 71) * 100] is 29: the quotient
    is rounded to a binary64 number before it is multiplied by 100 and
    truncated.  On the three comments of the example it reports 2 wins,
    1 loss and 66 percent. *)
Theorem win_percentage_rounding :
  cooperative_game_statistics
    {| data := Some Demo.hundred_plays; username := "demo" |} =
    Ok {| wins := 29; losses := 71; win_percentage := 28 |} /\
  exact_percentage 29 71 = 29 /\
  cooperative_game_statistics
    {| data := Some [Demo.commented "Won the game";
                     Demo.commented "Lost badly";
                     Demo.commented "Won again"];
       username := "demo" |} =
    Ok {| wins := 2; losses := 1; win_percentage := 66 |} /\
  exact_percentage 2 1 = 66.
Proof.
  repeat split; vm_compute; reflexivity.
Qed.

(** C4.  On a fetched sequence whose first ten plays carry a name and a
    game id with a thumbnail the remote serves, [latest_played_games]
    returns one entry per play of that prefix, in the order of the
    sequence, with the play's name and date and the thumbnail of its
    game; it has [min 10 (len plays)] entries, so never more than ten and
    never more than the sequence. *)
Theorem latest_played_games_first_ten (W : World) (self : BggPlays) (plays : list play) :
  data self = Some plays ->
  Forall (fun p => exists n gid th,
            Play.game_name p = Some n /\
            Play.game_id p = Some gid /\
            _get_thumbnail W gid = Ok th)
         (firstn 10 plays) ->
  exists entries,
    latest_played_games W self = Ok entries /\
    Forall2 (fun p e =>
               Play.game_name p = Some (l_name e) /\
               l_date e = Play.date p /\
               exists gid, Play.game_id p = Some gid /\
                           _get_thumbnail W gid = Ok (l_thumbnail e))
            (firstn 10 plays) entries /\
    List.length entries = Nat.min 10 (List.length plays) /\
    (List.length entries <= 10)%nat /\
    (List.length entries <= List.length plays)%nat.
Proof.
  intros Hd Hall.
  destruct (mapM_Forall2 (latest_entry_of W)
              (fun p e =>
                 Play.game_name p = Some (l_name e) /\
                 l_date e = Play.date p /\
                 exists gid, Play.game_id p = Some gid /\
                             _get_thumbnail W gid = Ok (l_thumbnail e))
              (firstn 10 plays)) as (entries & E & H2).
  - eapply Forall_impl; [|exact Hall]. intros p (n & gid & th & En & Eg & Et).
    exists {| l_name := n; l_date := Play.date p; l_thumbnail := th |}.
    unfold latest_entry_of. rewrite En, Eg. simpl. rewrite Et. simpl.
    repeat split. now exists gid.
  - exists entries. unfold latest_played_games. rewrite Hd.
    split; [exact E|]. split; [exact H2|].
    assert (Hlen : List.length entries = Nat.min 10 (List.length plays)).
    { rewrite <- (Forall2_length H2). apply length_firstn. }
    split; [exact Hlen|]. lia.
Qed.

Lemma latest_played_games_first_ten_witness :
  exists plays entries,
    data Demo.fetched = Some plays /\
    latest_played_games Demo.world Demo.fetched = Ok entries /\
    map l_name entries = [Some "Pandemic"; Some "Hanabi"; Some "Pandemic"] /\
    List.length entries = Nat.min 10 (List.length plays).
Proof.
  destruct (latest_played_games_first_ten Demo.world Demo.fetched _ eq_refl)
    as (entries & E & _ & Hlen & _).
  - repeat constructor; do 3 eexists; repeat split; reflexivity.
  - eexists _, entries. split; [reflexivity|]. split; [exact E|].
    split; [|exact Hlen].
    vm_compute in E. injection E as <-. reflexivity.
Defined.

(** C5.  Before any fetch, [latest_played_games],
    [cooperative_game_statistics] and [most_played_game] raise the
    exception that says the data has not been fetched; [game_info_by_id]
    has no such test and raises [TypeError]. *)
Theorem unfetched_operations (W : World) (user : string) (game_id : Z) :
  latest_played_games W (init user) = Raise (Exception NO_DATA) /\
  cooperative_game_statistics (init user) = Raise (Exception NO_DATA) /\
  most_played_game W (init user) = Raise (Exception NO_DATA) /\
  game_info_by_id W (init user) game_id = Raise TypeError.
Proof.
  repeat split.
Qed.

(** C6.  On a fetched sequence, [game_info_by_id] raises [StopIteration]
    when every play carries another id, and otherwise answers with the
    name of the first play that carries the id and the thumbnail of that
    game. *)
Theorem game_info_by_id_first_match (W : World) (self : BggPlays)
        (plays : list play) (gid : Z) :
  data self = Some plays ->
  (Forall (fun p => exists g, Play.game_id p = Some g /\ g <> gid) plays ->
   game_info_by_id W self gid = Raise StopIteration) /\
  (forall pre p post n,
     plays = pre ++ p :: post ->
     Forall (fun q => exists g, Play.game_id q = Some g /\ g <> gid) pre ->
     Play.game_id p = Some gid ->
     Play.game_name p = Some n ->
     game_info_by_id W self gid =
       (th <- _get_thumbnail W gid ;;
        Ok {| name := n; thumbnail := th; time := None |})).
Proof.
  intros Hd. unfold game_info_by_id. rewrite Hd. split.
  - intros H. now rewrite (next_with_id_none gid plays H).
  - intros pre p post n -> Hpre Hp Hn.
    rewrite (next_with_id_first gid pre post p Hpre Hp). simpl.
    rewrite Hn, Hp. reflexivity.
Qed.

Lemma game_info_by_id_first_match_witness :
  game_info_by_id Demo.world Demo.fetched 3 = Raise StopIteration /\
  game_info_by_id Demo.world Demo.fetched 2 =
    Ok {| name := Some "Hanabi"; thumbnail := Some Demo.thumb2; time := None |}.
Proof.
  split.
  - refine (proj1 (game_info_by_id_first_match Demo.world Demo.fetched _ 3 eq_refl) _).
    repeat constructor; eexists; (split; [reflexivity|discriminate]).
  - pose proof (proj2 (game_info_by_id_first_match Demo.world Demo.fetched _ 2 eq_refl)) as H.
    match type of H with
    | forall pre p post n, ?l = _ -> _ =>
        match eval vm_compute in l with
        | ?a :: ?b :: ?c =>
            exact (H [a] b c (Some "Hanabi") eq_refl
                     (Forall_cons a (ex_intro _ 1 (conj eq_refl (Z.lt_neq 1 2 eq_refl)))
                                  (Forall_nil _))
                     eq_refl eq_refl)
        end
    end.
Defined.

(** C7.  When the remote answers the plays request with status 500 and a
    well-formed body without plays, [fetch_data] does not raise: it
    parses the body and stores the empty list. *)
Theorem fetch_data_ignores_status :
  requests_get Demo.failing_world
    (String.append (BASE_URL Demo.failing_world) "plays")
    [("username", PStr "demo")] =
    Ok {| status_code := 500; content := Demo.empty_body |} /\
  fetch_data Demo.failing_world (init "demo") =
    (Ok tt, {| data := Some []; username := "demo" |}).
Proof.
  split; reflexivity.
Qed.

(** C8.  On a fetched sequence whose comments are texts (or missing), a
    play whose comment contains both markers adds one to the wins and one
    to the losses: the statistics are those built from the tallies of the
    other plays, each increased by one. *)
Theorem both_markers_counted_in_both (self : BggPlays)
        (pre post : list play) (p : play) :
  data self = Some (pre ++ p :: post) ->
  Forall comment_is_text (pre ++ post) ->
  mentions WON_TEXT p ->
  mentions LOST_TEXT p ->
  exists w l,
    Py.count_if (comment_has WON_TEXT) (pre ++ post) = Ok w /\
    Py.count_if (comment_has LOST_TEXT) (pre ++ post) = Ok l /\
    Py.count_if (comment_has WON_TEXT) (pre ++ p :: post) = Ok (S w) /\
    Py.count_if (comment_has LOST_TEXT) (pre ++ p :: post) = Ok (S l) /\
    cooperative_game_statistics self = coop_result (S w) (S l) /\
    (forall r, cooperative_game_statistics self = Ok r ->
               wins r = S w /\ losses r = S l).
Proof.
  intros Hd Ht Hw Hl.
  destruct (count_if_total (comment_has WON_TEXT) (pre ++ post)) as (w & Ew).
  { eapply Forall_impl; [|exact Ht]. intros q. apply comment_has_total. }
  destruct (count_if_total (comment_has LOST_TEXT) (pre ++ post)) as (l & El).
  { eapply Forall_impl; [|exact Ht]. intros q. apply comment_has_total. }
  pose proof (count_if_insert _ pre post p w (comment_has_present _ _ Hw) Ew) as Ew'.
  pose proof (count_if_insert _ pre post p l (comment_has_present _ _ Hl) El) as El'.
  assert (E : cooperative_game_statistics self = coop_result (S w) (S l)).
  { unfold cooperative_game_statistics. rewrite Hd, Ew', El'. reflexivity. }
  exists w, l. repeat (split; [assumption|]).
  intros r Hr. rewrite E in Hr. now apply coop_result_tallies.
Qed.

Lemma both_markers_counted_in_both_witness :
  cooperative_game_statistics
    {| data := Some [Demo.commented "Won the game";
                     Demo.commented "Won, then Lost the rematch";
                     Demo.commented "Lost badly"];
       username := "demo" |} =
    Ok {| wins := 2; losses := 2; win_percentage := 50 |}.
Proof.
  destruct (both_markers_counted_in_both
              {| data := Some [Demo.commented "Won the game";
                               Demo.commented "Won, then Lost the rematch";
                               Demo.commented "Lost badly"];
                 username := "demo" |}
              [Demo.commented "Won the game"] [Demo.commented "Lost badly"]
              (Demo.commented "Won, then Lost the rematch") eq_refl)
    as (w & l & Ew & El & _ & _ & E & _).
  - repeat constructor; discriminate.
  - eexists. split; reflexivity.
  - eexists. split; reflexivity.
  - rewrite E. injection Ew as <-. injection El as <-. reflexivity.
Defined.

(** C9.  [fetch_data] computes the new sequence from the user name and
    the remote alone and stores it in place of whatever was there; a
    second fetch from the same remote returns the same outcome and leaves
    the object as the first fetch left it, so every statistic is the same
    after it. *)
Theorem fetch_data_twice (W : World) (self : BggPlays) (game_id : Z) :
  let once := snd (fetch_data W self) in
  let twice := snd (fetch_data W once) in
  fetch_data W once = (fst (fetch_data W self), once) /\
  latest_played_games W twice = latest_played_games W once /\
  cooperative_game_statistics twice = cooperative_game_statistics once /\
  most_played_game W twice = most_played_game W once /\
  game_info_by_id W twice game_id = game_info_by_id W once game_id /\
  match fetch_plays W (username self) with
  | Ok plays => once = {| data := Some plays; username := username self |}
  | Raise _ => once = self
  end.
Proof.
  intros once twice.
  assert (E : fetch_data W once = (fst (fetch_data W self), once)).
  { subst once. unfold fetch_data.
    destruct (fetch_plays W (username self)) as [plays|e] eqn:Ef; simpl.
    - now rewrite Ef.
    - now rewrite Ef. }
  assert (Et : twice = once) by (subst twice; now rewrite E).
  rewrite Et. repeat (split; [reflexivity || exact E|]).
  subst once. unfold fetch_data.
  now destruct (fetch_plays W (username self)).
Qed.

(** C10.  When the fetched sequence is empty the test of [self.data]
    passes and [most_played_game] raises [ValueError], the error of
    [max] on an empty list. *)
Theorem most_played_game_empty (W : World) (user : string) :
  most_played_game W {| data := Some []; username := user |} = Raise ValueError.
Proof.
  reflexivity.
Qed.

(** ** Further properties of the code *)

Section StringFacts.

Lemma prefix_append (a s : string) :
  String.prefix a s = true <-> exists post, s = String.append a post.
Proof.
  revert s. induction a as [|c a IH]; intros s.
  - split; [intros _; now exists s|]. intros _. now destruct s.
  - destruct s as [|d s]; simpl.
    + split; [discriminate|intros (post & H); discriminate].
    + destruct (ascii_dec c d) as [->|Hne].
      * rewrite IH. split; intros (post & H); exists post; congruence.
      * split; [discriminate|]. intros (post & H). congruence.
Qed.

Lemma str_in_unfold (sub s : string) :
  Py.str_in sub s =
    if String.prefix sub s then true
    else match s with
         | EmptyString => false
         | String _ t => Py.str_in sub t
         end.
Proof.
  now destruct s.
Qed.

Lemma str_in_substring (sub s : string) :
  Py.str_in sub s = true <-> substring_of sub s.
Proof.
  unfold substring_of. split.
  - induction s as [|c s IH]; rewrite str_in_unfold;
      destruct (String.prefix sub _) eqn:E.
    + intros _. apply prefix_append in E as (post & E). now exists "", post.
    + discriminate.
    + intros _. apply prefix_append in E as (post & E). now exists "", post.
    + intros H. destruct (IH H) as (pre & post & ->).
      now exists (String c pre), post.
  - intros (pre & post & ->). induction pre as [|c pre IH];
      simpl String.append; rewrite str_in_unfold.
    + assert (E : String.prefix sub (String.append sub post) = true)
        by (apply prefix_append; now exists post).
      now rewrite E.
    + destruct (String.prefix sub _); [reflexivity|exact IH].
Qed.

End StringFacts.

(** X1.  A play counts for a marker exactly when its comment is a text in
    which the marker occurs as a run of consecutive characters. *)
Theorem comment_has_substring (marker : string) (p : play) :
  comment_has marker p = Ok true <->
  exists c, Play.comment p = Some (Some c) /\ substring_of marker c.
Proof.
  unfold comment_has. destruct (Play.comment p) as [[c|]|].
  - split.
    + intros H. exists c. split; [reflexivity|].
      apply str_in_substring. congruence.
    + intros (c' & E & H). injection E as <-.
      apply str_in_substring in H. now rewrite H.
  - split; [discriminate|]. intros (c & E & _). discriminate.
  - split; [discriminate|]. intros (c & E & _). discriminate.
Qed.

Section TallyFacts.

Lemma count_if_says (marker : string) (plays : list play) :
  Forall comment_is_text plays ->
  Py.count_if (comment_has marker) plays =
    Ok (List.length (filter (says marker) plays)).
Proof.
  induction 1 as [|p t Hp _ IH]; simpl.
  - reflexivity.
  - rewrite IH. unfold comment_has, says, comment_is_text in *.
    destruct (Play.comment p) as [[c|]|]; simpl.
    + now destruct (Py.str_in marker c).
    + congruence.
    + reflexivity.
Qed.

Lemma count_if_none_comment (marker : string) (plays : list play) :
  Exists (fun p => Play.comment p = Some None) plays ->
  Py.count_if (comment_has marker) plays = Raise TypeError.
Proof.
  induction plays as [|p t IH]; intros H.
  - inversion H.
  - simpl. unfold comment_has at 1.
    destruct (Play.comment p) as [[c|]|] eqn:E; simpl; try reflexivity.
    + rewrite IH; [reflexivity|]. inversion H; subst; [congruence|assumption].
    + rewrite IH; [reflexivity|]. inversion H; subst; [congruence|assumption].
Qed.

End TallyFacts.

(** X2.  On a fetched sequence whose comments are texts (or missing), the
    statistics are built from the number of plays that say the win marker
    and the number that say the loss marker; neither tally exceeds the
    number of plays. *)
Theorem cooperative_tallies (self : BggPlays) (plays : list play) :
  data self = Some plays ->
  Forall comment_is_text plays ->
  let w := List.length (filter (says WON_TEXT) plays) in
  let l := List.length (filter (says LOST_TEXT) plays) in
  cooperative_game_statistics self = coop_result w l /\
  (w <= List.length plays)%nat /\
  (l <= List.length plays)%nat.
Proof.
  intros Hd Ht w l. split; [|split; apply filter_length_le].
  unfold cooperative_game_statistics.
  rewrite Hd, !count_if_says by assumption. reflexivity.
Qed.

Lemma cooperative_tallies_witness :
  cooperative_game_statistics Demo.fetched = coop_result 2 1.
Proof.
  refine (proj1 (cooperative_tallies Demo.fetched _ eq_refl _)).
  repeat constructor; discriminate.
Defined.

(** X3.  On a fetched sequence in which some play has a comment key whose
    value is [None] (the second child of its node had no text),
    [cooperative_game_statistics] raises [TypeError], whatever the other
    plays say. *)
Theorem cooperative_none_comment (self : BggPlays) (plays : list play) :
  data self = Some plays ->
  Exists (fun p => Play.comment p = Some None) plays ->
  cooperative_game_statistics self = Raise TypeError.
Proof.
  intros Hd H. unfold cooperative_game_statistics.
  rewrite Hd, (count_if_none_comment WON_TEXT plays H). reflexivity.
Qed.

Lemma cooperative_none_comment_witness :
  cooperative_game_statistics
    {| data := Some [Demo.commented "Won";
                     {| Play.date := mkDatetime 2018 6 22 0 0 0 0;
                        Play.game_id := Some 1;
                        Play.game_name := Some (Some "Pandemic");
                        Play.comment := Some None;
                        Play.length := 30 |}];
       username := "demo" |} = Raise TypeError.
Proof.
  refine (cooperative_none_comment (mkBggPlays (Some _) _) _ eq_refl _).
  apply Exists_cons_tl. apply Exists_cons_hd. reflexivity.
Defined.

Section MostPlayedMore.

Lemma mapM_keyed_missing (plays : list play) :
  Exists (fun p => Play.game_id p = None) plays ->
  mapM keyed plays = Raise (KeyError "game_id").
Proof.
  induction plays as [|p t IH]; intros H.
  - inversion H.
  - simpl. unfold keyed at 1.
    destruct (Play.game_id p) as [gid|] eqn:E; simpl; [|reflexivity].
    rewrite IH; [reflexivity|]. inversion H; subst; [congruence|assumption].
Qed.

Lemma ids_or_missing (plays : list play) :
  Forall (fun p => Play.game_id p <> None) plays \/
  Exists (fun p => Play.game_id p = None) plays.
Proof.
  induction plays as [|p t [IH|IH]].
  - left. constructor.
  - destruct (Play.game_id p) eqn:E.
    + left. constructor; [congruence|exact IH].
    + right. now constructor.
  - right. now apply Exists_cons_tl.
Qed.

Lemma total_length_perm (g : Z) (plays plays' : list play) :
  Permutation plays plays' -> total_length g plays = total_length g plays'.
Proof.
  intros H. unfold total_length. apply sum_perm. now apply filter_perm.
Qed.

Lemma played_perm (g : Z) (plays plays' : list play) :
  Permutation plays plays' -> played g plays -> played g plays'.
Proof.
  intros H (p & Hp & E). exists p. split; [|exact E].
  exact (Permutation_in p H Hp).
Qed.

(** The first play of a game that was played. *)
Lemma played_first (g : Z) (plays : list play) :
  Forall (fun p => Play.game_id p <> None) plays ->
  played g plays ->
  exists pre p post,
    plays = pre ++ p :: post /\
    Forall (fun q => exists g', Play.game_id q = Some g' /\ g' <> g) pre /\
    Play.game_id p = Some g.
Proof.
  induction 1 as [|q t Hq Ht IH]; intros (p & Hp & E).
  - contradiction.
  - destruct (Play.game_id q) as [g'|] eqn:Eq; [|contradiction].
    destruct (Z.eq_dec g' g) as [->|Hne].
    + exists [], q, t. repeat split; [constructor|exact Eq].
    + destruct Hp as [->|Hp]; [congruence|].
      destruct IH as (pre & p' & post & -> & Hpre & Ep'); [now exists p|].
      exists (q :: pre), p', post. repeat split; [|exact Ep'].
      constructor; [now exists g'|exact Hpre].
Qed.

Lemma total_length_cons (g : Z) (q : play) (t : list play) :
  total_length g (q :: t) =
    if has_id g q then Play.length q + total_length g t else total_length g t.
Proof.
  unfold total_length. simpl. destruct (has_id g q); [apply sum_cons|reflexivity].
Qed.

Lemma total_length_nonneg (g : Z) (plays : list play) :
  Forall (fun p => 0 <= Play.length p) plays -> 0 <= total_length g plays.
Proof.
  induction 1 as [|q t Hq _ IH].
  - unfold total_length. simpl. rewrite sum_nil. lia.
  - rewrite total_length_cons. destruct (has_id g q); lia.
Qed.

Lemma total_length_covers (g : Z) (plays : list play) (p : play) :
  Forall (fun p => 0 <= Play.length p) plays ->
  In p plays -> Play.game_id p = Some g ->
  Play.length p <= total_length g plays.
Proof.
  induction 1 as [|q t Hq Ht IH]; intros Hp E.
  - contradiction.
  - rewrite total_length_cons.
    pose proof (total_length_nonneg g t Ht) as Hn.
    destruct Hp as [->|Hp].
    + unfold has_id. rewrite E, Z.eqb_refl. lia.
    + specialize (IH Hp E). destruct (has_id g q); lia.
Qed.

End MostPlayedMore.

(** X4.  The pair chosen by [most_played_game] (game id and summed
    length, or the exception) does not depend on the order of the plays. *)
Theorem most_played_order_independent (plays plays' : list play) :
  Permutation plays plays' -> most_played plays = most_played plays'.
Proof.
  intros Hperm. destruct (ids_or_missing plays) as [Hall|Hex].
  - assert (Hall' : Forall (fun p => Play.game_id p <> None) plays')
      by exact (Permutation_Forall Hperm Hall).
    destruct plays as [|p t].
    + apply Permutation_nil in Hperm. now subst.
    + assert (Hne' : plays' <> []).
      { intros ->. apply Permutation_sym, Permutation_nil in Hperm. discriminate. }
      destruct (most_played_spec (p :: t)) as (g & E & Hp & Hmax & Htie);
        [discriminate|exact Hall|].
      destruct (most_played_spec plays' Hne' Hall') as (g' & E' & Hp' & Hmax' & Htie').
      rewrite E, E'.
      pose proof (total_length_perm g _ _ Hperm) as T.
      pose proof (total_length_perm g' _ _ Hperm) as T'.
      pose proof (Hmax g' (played_perm g' _ _ (Permutation_sym Hperm) Hp')) as L1.
      pose proof (Hmax' g (played_perm g _ _ Hperm Hp)) as L2.
      assert (Heq : total_length g' (p :: t) = total_length g (p :: t)) by lia.
      pose proof (Htie g' (played_perm g' _ _ (Permutation_sym Hperm) Hp') Heq) as G1.
      assert (Heq' : total_length g plays' = total_length g' plays') by lia.
      pose proof (Htie' g (played_perm g _ _ Hperm Hp) Heq') as G2.
      assert (g = g') as -> by lia. now rewrite T'.
  - assert (Hex' : Exists (fun p => Play.game_id p = None) plays')
      by exact (Permutation_Exists Hperm Hex).
    unfold most_played.
    now rewrite (mapM_keyed_missing plays Hex), (mapM_keyed_missing plays' Hex').
Qed.

Lemma most_played_order_independent_witness :
  most_played (rev Demo.hundred_plays) = Ok (1, 3000).
Proof.
  rewrite <- (most_played_order_independent Demo.hundred_plays
                (rev Demo.hundred_plays) (Permutation_rev _)).
  reflexivity.
Defined.

(** X5.  On a fetched sequence in which some play has no game id (its
    node had no item child), [most_played_game] raises
    [KeyError('game_id')]. *)
Theorem most_played_game_missing_id (W : World) (self : BggPlays) (plays : list play) :
  data self = Some plays ->
  Exists (fun p => Play.game_id p = None) plays ->
  most_played_game W self = Raise (KeyError "game_id").
Proof.
  intros Hd H. unfold most_played_game, most_played.
  rewrite Hd, (mapM_keyed_missing plays H). reflexivity.
Qed.

Lemma most_played_game_missing_id_witness :
  most_played_game Demo.world
    {| data := Some [Demo.commented "Won";
                     {| Play.date := mkDatetime 2018 6 22 0 0 0 0;
                        Play.game_id := None;
                        Play.game_name := None;
                        Play.comment := None;
                        Play.length := 45 |}];
       username := "demo" |} = Raise (KeyError "game_id").
Proof.
  refine (most_played_game_missing_id Demo.world (mkBggPlays (Some _) _) _ eq_refl _).
  apply Exists_cons_tl. apply Exists_cons_hd. reflexivity.
Defined.

(** X6.  On a fetched, non-empty sequence whose plays all carry a game id
    and a name, the lookup inside [most_played_game] cannot miss: the
    answer carries the name of the first play of the chosen game, the
    thumbnail of that game and the summed length, and the only exception
    left is one of the thumbnail request. *)
Theorem most_played_game_answer (W : World) (self : BggPlays) (plays : list play) :
  data self = Some plays ->
  plays <> [] ->
  Forall (fun p => Play.game_id p <> None /\ Play.game_name p <> None) plays ->
  exists gid pre p post n,
    plays = pre ++ p :: post /\
    Forall (fun q => exists g, Play.game_id q = Some g /\ g <> gid) pre /\
    Play.game_id p = Some gid /\
    Play.game_name p = Some n /\
    most_played_game W self =
      (th <- _get_thumbnail W gid ;;
       Ok {| name := n; thumbnail := th; time := Some (total_length gid plays) |}).
Proof.
  intros Hd Hne Hall.
  assert (Hids : Forall (fun p => Play.game_id p <> None) plays).
  { eapply Forall_impl; [|exact Hall]. now intros p [H _]. }
  destruct (most_played_spec plays Hne Hids) as (gid & E & Hp & _ & _).
  destruct (played_first gid plays Hids Hp) as (pre & p & post & Es & Hpre & Ep).
  assert (Hn : Play.game_name p <> None).
  { rewrite Forall_forall in Hall. apply (Hall p).
    rewrite Es. apply in_or_app. right. now left. }
  destruct (Play.game_name p) as [n|] eqn:En; [|contradiction].
  exists gid, pre, p, post, n. repeat (split; [assumption|]).
  unfold most_played_game, game_info_by_id. rewrite Hd, E. simpl.
  rewrite Es at 1. rewrite (next_with_id_first gid pre post p Hpre Ep). simpl.
  rewrite En, Ep. simpl. now destruct (_get_thumbnail W gid).
Qed.

Lemma most_played_game_answer_witness :
  exists plays gid pre p post n,
    data Demo.fetched = Some plays /\
    plays = pre ++ p :: post /\
    Play.game_id p = Some gid /\
    Play.game_name p = Some n /\
    most_played_game Demo.world Demo.fetched =
      (th <- _get_thumbnail Demo.world gid ;;
       Ok {| name := n; thumbnail := th; time := Some (total_length gid plays) |}).
Proof.
  destruct (most_played_game_answer Demo.world Demo.fetched _ eq_refl)
    as (gid & pre & p & post & n & Es & _ & Ep & En & E).
  - discriminate.
  - repeat constructor; discriminate.
  - eexists _, gid, pre, p, post, n. split; [reflexivity|]. now repeat split.
Defined.

(** X7.  On a non-empty sequence whose plays all carry a game id and a
    length that is not negative, the summed length that
    [most_played_game] reports is at least the length of every single
    play. *)
Theorem most_played_time_covers (plays : list play) :
  plays <> [] ->
  Forall (fun p => Play.game_id p <> None) plays ->
  Forall (fun p => 0 <= Play.length p) plays ->
  exists gid total,
    most_played plays = Ok (gid, total) /\
    forall p, In p plays -> Play.length p <= total.
Proof.
  intros Hne Hids Hlen.
  destruct (most_played_spec plays Hne Hids) as (gid & E & _ & Hmax & _).
  exists gid, (total_length gid plays). split; [exact E|].
  intros p Hp. rewrite Forall_forall in Hids.
  destruct (Play.game_id p) as [g|] eqn:Eg; [|now destruct (Hids p Hp)].
  pose proof (total_length_covers g plays p Hlen Hp Eg) as Hc.
  assert (Hg : played g plays) by now exists p.
  specialize (Hmax g Hg). lia.
Qed.

Lemma most_played_time_covers_witness :
  exists gid total,
    most_played Demo.hundred_plays = Ok (gid, total) /\
    forall p, In p Demo.hundred_plays -> Play.length p <= total.
Proof.
  apply most_played_time_covers.
  - discriminate.
  - repeat constructor; discriminate.
  - repeat constructor; discriminate.
Defined.

Section ParseFacts.

Variable W : World.

Lemma mapM_inv {A B : Type} (f : A -> result B) (l : list A) (ys : list B) :
  mapM f l = Ok ys -> Forall2 (fun x y => f x = Ok y) l ys.
Proof.
  revert ys. induction l as [|x t IH]; simpl; intros ys H.
  - injection H as <-. constructor.
  - destruct (f x) as [y|e] eqn:Ex; simpl in H; [|discriminate].
    destruct (mapM f t) as [ys'|e] eqn:Et; simpl in H; [|discriminate].
    injection H as <-. constructor; [exact Ex|now apply IH].
Qed.

Lemma mapM_first_error {A B : Type} (f : A -> result B)
      (pre post : list A) (x : A) (e : exception) :
  Forall (fun a => exists b, f a = Ok b) pre ->
  f x = Raise e ->
  mapM f (pre ++ x :: post) = Raise e.
Proof.
  intros Hpre Hx. induction Hpre as [|a t (b & Ea) _ IH]; simpl.
  - now rewrite Hx.
  - now rewrite Ea, IH.
Qed.

Lemma mapM_ext {A B : Type} (f g : A -> result B) (l : list A) :
  (forall x, f x = g x) -> mapM f l = mapM g l.
Proof.
  intros H. induction l as [|x t IH]; simpl; [reflexivity|].
  now rewrite H, IH.
Qed.

Lemma tag_item_not_comments (x : Element) :
  String.eqb (Xml.tag x) "item" = true -> ~ tagged "comments" x.
Proof.
  unfold tagged. intros H E. rewrite E in H. discriminate.
Qed.

(** What the inner loop does to the keys of the item node: untouched
    without an item child, otherwise set from the last one. *)
Lemma parse_children_item (x : Element) (nodes : list Element) :
  forall acc acc',
    parse_children W x nodes acc = Ok acc' ->
    (Forall (fun c => ~ tagged "item" c) nodes /\
     pp_game_id acc' = pp_game_id acc /\
     pp_game_name acc' = pp_game_name acc) \/
    (exists pre child post gid,
       nodes = pre ++ child :: post /\
       tagged "item" child /\
       Forall (fun c => ~ tagged "item" c) post /\
       int_of_attr W (Xml.get child "objectid") = Ok gid /\
       pp_game_id acc' = Some gid /\
       pp_game_name acc' = Some (Xml.get child "name")).
Proof.
  induction nodes as [|c t IH]; simpl; intros acc acc' H.
  - injection H as <-. left. repeat split. constructor.
  - destruct (String.eqb_spec (Xml.tag c) "item") as [Ei|Ei].
    + destruct (int_of_attr W (Xml.get c "objectid")) as [gid|e] eqn:Eg;
        simpl in H; [|discriminate].
      destruct (IH _ _ H) as [(Hno & Hid & Hname)|(pre & ch & post & g & -> & R)].
      * right. exists [], c, t, gid. simpl in Hid, Hname. now repeat split.
      * right. exists (c :: pre), ch, post, g. now split.
    + destruct (String.eqb (Xml.tag c) "comments").
      * destruct (Xml.item x 1) as [second|e]; simpl in H; [|discriminate].
        destruct (IH _ _ H) as [(Hno & Hid & Hname)|(pre & ch & post & g & -> & R)].
        -- left. simpl in Hid, Hname. repeat split; try assumption.
           now constructor.
        -- right. exists (c :: pre), ch, post, g. now split.
      * destruct (IH _ _ H) as [(Hno & Hid & Hname)|(pre & ch & post & g & -> & R)].
        -- left. repeat split; try assumption. now constructor.
        -- right. exists (c :: pre), ch, post, g. now split.
Qed.

(** What the inner loop does to the comment: untouched without a comments
    child, otherwise the text of the second child of the play. *)
Lemma parse_children_comment (x : Element) (nodes : list Element) :
  forall acc acc',
    parse_children W x nodes acc = Ok acc' ->
    (Forall (fun c => ~ tagged "comments" c) nodes /\
     pp_comment acc' = pp_comment acc) \/
    (Exists (tagged "comments") nodes /\
     exists second,
       nth_error (Xml.children x) 1 = Some second /\
       pp_comment acc' = Some (Xml.text second)).
Proof.
  induction nodes as [|c t IH]; simpl; intros acc acc' H.
  - injection H as <-. left. split; [constructor|reflexivity].
  - destruct (String.eqb (Xml.tag c) "item") eqn:Ei.
    + destruct (int_of_attr W (Xml.get c "objectid")) as [gid|e];
        simpl in H; [|discriminate].
      destruct (IH _ _ H) as [(Hno & Hc)|(Hex & R)].
      * left. split; [|exact Hc].
        constructor; [now apply tag_item_not_comments|exact Hno].
      * right. split; [now apply Exists_cons_tl|exact R].
    + destruct (String.eqb_spec (Xml.tag c) "comments") as [Ec|Ec].
      * unfold Xml.item in H.
        destruct (nth_error (Xml.children x) 1) as [second|] eqn:E2;
          simpl in H; [|discriminate].
        right. split; [now apply Exists_cons_hd|].
        destruct (IH _ _ H) as [(Hno & Hc)|(Hex & s0 & Es & Hc)].
        -- exists second. split; [exact E2|exact Hc].
        -- injection Es as <-. exists second. split; [exact E2|exact Hc].
      * destruct (IH _ _ H) as [(Hno & Hc)|(Hex & R)].
        -- left. split; [|exact Hc]. now constructor.
        -- right. split; [now apply Exists_cons_tl|exact R].
Qed.

Lemma parse_play_inv (x : Element) (p : play) :
  parse_play W x = Ok p ->
  exists acc,
    parse_children W x (Xml.children x)
      {| pp_game_id := None; pp_game_name := None; pp_comment := None |} = Ok acc /\
    date_of_attr W (Xml.get x "date") = Ok (Play.date p) /\
    int_of_attr W (Xml.get x "length") = Ok (Play.length p) /\
    Play.game_id p = pp_game_id acc /\
    Play.game_name p = pp_game_name acc /\
    Play.comment p = pp_comment acc.
Proof.
  unfold parse_play. intros H.
  destruct (date_of_attr W _) as [d|e]; simpl in H; [|discriminate].
  destruct (parse_children W x _ _) as [acc|e]; simpl in H; [|discriminate].
  destruct (int_of_attr W _) as [len|e]; simpl in H; [|discriminate].
  injection H as <-. exists acc. now repeat split.
Qed.

End ParseFacts.

(** X8.  A fetch that succeeds stores one play per child node of the
    response, in the order of the nodes; each play has the date and the
    length parsed from the attributes of its node, and the user name is
    kept. *)
Theorem fetch_data_keeps_order (W : World) (self self' : BggPlays) :
  fetch_data W self = (Ok tt, self') ->
  exists root plays,
    request_data W "plays" [("username", PStr (username self))] = Ok root /\
    data self' = Some plays /\
    username self' = username self /\
    List.length plays = List.length (Xml.children root) /\
    Forall2 (fun x p =>
               parse_play W x = Ok p /\
               date_of_attr W (Xml.get x "date") = Ok (Play.date p) /\
               int_of_attr W (Xml.get x "length") = Ok (Play.length p))
            (Xml.children root) plays.
Proof.
  unfold fetch_data, fetch_plays. intros H.
  destruct (request_data W "plays" _) as [root|e] eqn:Er; simpl in H; [|discriminate].
  destruct (mapM (parse_play W) (Xml.children root)) as [plays|e] eqn:Em;
    [|discriminate].
  injection H as <-. exists root, plays. repeat split.
  - symmetry. exact (Forall2_length (mapM_inv _ _ _ Em)).
  - eapply Forall2_impl; [|exact (mapM_inv _ _ _ Em)].
    intros x p Hp. split; [exact Hp|].
    destruct (parse_play_inv W x p Hp) as (acc & _ & Hdate & Hlen & _).
    now split.
Qed.

Lemma fetch_data_keeps_order_witness :
  exists root plays,
    request_data Demo.world "plays" [("username", PStr "demo")] = Ok root /\
    data Demo.fetched = Some plays /\
    List.length plays = List.length (Xml.children root).
Proof.
  destruct (fetch_data_keeps_order Demo.world (init "demo") Demo.fetched eq_refl)
    as (root & plays & Er & Ed & _ & Hlen & _).
  now exists root, plays.
Defined.

(** X9.  A play that was parsed has no game id and no name when its node
    has no item child; otherwise both come from the last item child: the
    id is [int] of its objectid and the name is its name attribute. *)
Theorem parse_play_item (W : World) (x : Element) (p : play) :
  parse_play W x = Ok p ->
  (Forall (fun c => ~ tagged "item" c) (Xml.children x) /\
   Play.game_id p = None /\
   Play.game_name p = None) \/
  (exists pre child post gid,
     Xml.children x = pre ++ child :: post /\
     tagged "item" child /\
     Forall (fun c => ~ tagged "item" c) post /\
     int_of_attr W (Xml.get child "objectid") = Ok gid /\
     Play.game_id p = Some gid /\
     Play.game_name p = Some (Xml.get child "name")).
Proof.
  intros H.
  destruct (parse_play_inv W x p H) as (acc & Ec & _ & _ & -> & -> & _).
  destruct (parse_children_item W x _ _ _ Ec) as [(Hno & Hid & Hn)|R].
  - left. now repeat split.
  - right. exact R.
Qed.

Lemma parse_play_item_witness :
  Play.game_id (Demo.commented "Won the game") = Some 1 /\
  exists child,
    In child (Xml.children
                (Demo.play_node "2018-06-22" "30" "Pandemic" "1" "Won the game")) /\
    Play.game_name (Demo.commented "Won the game") = Some (Xml.get child "name").
Proof.
  split; [reflexivity|].
  destruct (parse_play_item Demo.world
              (Demo.play_node "2018-06-22" "30" "Pandemic" "1" "Won the game")
              (Demo.commented "Won the game") eq_refl)
    as [(_ & E & _)|(pre & child & post & gid & Es & _ & _ & _ & _ & En)].
  - discriminate E.
  - exists child. split; [|exact En].
    rewrite Es. apply in_or_app. right. now left.
Defined.

(** X10.  A play that was parsed has no comment key when its node has no
    comments child; otherwise its comment is the text of the second child
    of the node, which therefore exists. *)
Theorem parse_play_comment (W : World) (x : Element) (p : play) :
  parse_play W x = Ok p ->
  (Forall (fun c => ~ tagged "comments" c) (Xml.children x) /\
   Play.comment p = None) \/
  (Exists (tagged "comments") (Xml.children x) /\
   exists second,
     nth_error (Xml.children x) 1 = Some second /\
     Play.comment p = Some (Xml.text second)).
Proof.
  intros H.
  destruct (parse_play_inv W x p H) as (acc & Ec & _ & _ & _ & _ & ->).
  destruct (parse_children_comment W x _ _ _ Ec) as [(Hno & Hc)|R].
  - left. now split.
  - right. exact R.
Qed.

Lemma parse_play_comment_witness :
  exists second,
    nth_error (Xml.children
                 (Demo.play_node "2018-06-22" "30" "Pandemic" "1" "Won the game")) 1 =
      Some second /\
    Play.comment (Demo.commented "Won the game") = Some (Xml.text second).
Proof.
  destruct (parse_play_comment Demo.world
              (Demo.play_node "2018-06-22" "30" "Pandemic" "1" "Won the game")
              (Demo.commented "Won the game") eq_refl)
    as [(_ & E)|(_ & R)].
  - discriminate E.
  - exact R.
Defined.

(** X11.  A play node whose only child is a comments node cannot be
    parsed: once its date is read, the loop asks for the second child and
    raises [IndexError]. *)
Theorem parse_play_lonely_comment (W : World) (x c : Element) (d : datetime) :
  Xml.children x = [c] ->
  tagged "comments" c ->
  date_of_attr W (Xml.get x "date") = Ok d ->
  parse_play W x = Raise IndexError.
Proof.
  unfold parse_play, tagged. intros Hc Ht Hd.
  rewrite Hd, Hc. simpl. rewrite Ht. simpl.
  unfold Xml.item. rewrite Hc. reflexivity.
Qed.

Lemma parse_play_lonely_comment_witness :
  parse_play Demo.world
    (mkElement "play" [("date", "2018-06-22"); ("length", "30")] None
       [mkElement "comments" [] (Some "Won") []]) = Raise IndexError.
Proof.
  apply (parse_play_lonely_comment Demo.world _
           (mkElement "comments" [] (Some "Won") [])
           (mkDatetime 2018 6 22 0 0 0 0)); reflexivity.
Defined.

(** X12.  When a play node of the response cannot be parsed, [fetch_data]
    raises the exception of the first such node and leaves the object as
    it was: no partial list is stored. *)
Theorem fetch_data_all_or_nothing (W : World) (self : BggPlays) (root : Element)
        (pre post : list Element) (x : Element) (e : exception) :
  request_data W "plays" [("username", PStr (username self))] = Ok root ->
  Xml.children root = pre ++ x :: post ->
  Forall (fun a => exists p, parse_play W a = Ok p) pre ->
  parse_play W x = Raise e ->
  fetch_data W self = (Raise e, self).
Proof.
  intros Hr Hc Hpre Hx. unfold fetch_data, fetch_plays.
  rewrite Hr. simpl. rewrite Hc.
  now rewrite (mapM_first_error (parse_play W) pre post x e Hpre Hx).
Qed.

(** X13.  When the response has no play node the fetch succeeds with an
    empty list; after it [latest_played_games] returns the empty list,
    [cooperative_game_statistics] raises [ZeroDivisionError] and
    [most_played_game] raises [ValueError]. *)
Theorem fetch_data_no_plays (W : World) (self : BggPlays) (root : Element) :
  request_data W "plays" [("username", PStr (username self))] = Ok root ->
  Xml.children root = [] ->
  let self' := snd (fetch_data W self) in
  fetch_data W self = (Ok tt, {| data := Some []; username := username self |}) /\
  latest_played_games W self' = Ok [] /\
  cooperative_game_statistics self' = Raise ZeroDivisionError /\
  most_played_game W self' = Raise ValueError.
Proof.
  intros Hr Hc self'.
  assert (E : fetch_data W self =
                (Ok tt, {| data := Some []; username := username self |})).
  { unfold fetch_data, fetch_plays. rewrite Hr. simpl. now rewrite Hc. }
  subst self'. rewrite E. now repeat split.
Qed.

Lemma fetch_data_no_plays_witness :
  fetch_data Demo.failing_world (init "demo") =
    (Ok tt, {| data := Some []; username := "demo" |}) /\
  most_played_game Demo.failing_world
    (snd (fetch_data Demo.failing_world (init "demo"))) = Raise ValueError.
Proof.
  destruct (fetch_data_no_plays Demo.failing_world (init "demo") Demo.empty_tree
              eq_refl eq_refl) as (E & _ & _ & Hm).
  split; [exact E|exact Hm].
Defined.

Lemma fetch_data_all_or_nothing_witness :
  fetch_data Sample.broken_world Demo.fetched = (Raise TypeError, Demo.fetched).
Proof.
  refine (fetch_data_all_or_nothing Sample.broken_world Demo.fetched
            Sample.broken_tree
            [Demo.play_node "2018-06-22" "30" "Pandemic" "1" "Won the game"]
            [] _ TypeError eq_refl eq_refl _ eq_refl).
  repeat constructor. eexists. reflexivity.
Defined.

Section StatusFacts.

Variable W : World.
Variable status : string -> list (string * param) -> Z.

Lemma request_data_with_status (uri : string) (params : list (string * param)) :
  request_data (with_status status W) uri params = request_data W uri params.
Proof.
  unfold request_data. simpl.
  destruct (requests_get W _ params) as [r|e]; simpl; [|reflexivity].
  now destruct (negb (status_code r =? 200)), (negb (status _ params =? 200)).
Qed.

Lemma get_thumbnail_with_status (gid : Z) :
  _get_thumbnail (with_status status W) gid = _get_thumbnail W gid.
Proof.
  unfold _get_thumbnail. now rewrite request_data_with_status.
Qed.

Lemma game_info_with_status (self : BggPlays) (gid : Z) :
  game_info_by_id (with_status status W) self gid = game_info_by_id W self gid.
Proof.
  unfold game_info_by_id. destruct (data self) as [plays|]; [|reflexivity].
  destruct (next_with_id gid plays) as [p|e]; simpl; [|reflexivity].
  destruct (Py.getitem "game_name" _) as [n|e]; simpl; [|reflexivity].
  destruct (Py.getitem "game_id" _) as [g|e]; simpl; [|reflexivity].
  now rewrite get_thumbnail_with_status.
Qed.

End StatusFacts.

(** X14.  No method reads the status of a response: replacing every
    status by any other leaves the outcome of the fetch and the answer of
    every method as they were. *)
Theorem status_is_never_read (W : World)
        (status : string -> list (string * param) -> Z)
        (self : BggPlays) (gid : Z) :
  fetch_data (with_status status W) self = fetch_data W self /\
  latest_played_games (with_status status W) self = latest_played_games W self /\
  game_info_by_id (with_status status W) self gid = game_info_by_id W self gid /\
  most_played_game (with_status status W) self = most_played_game W self.
Proof.
  repeat split.
  - unfold fetch_data, fetch_plays. rewrite request_data_with_status.
    reflexivity.
  - unfold latest_played_games. destruct (data self) as [plays|]; [|reflexivity].
    apply mapM_ext. intros p. unfold latest_entry_of.
    destruct (Py.getitem "game_name" _) as [n|e]; simpl; [|reflexivity].
    destruct (Py.getitem "game_id" _) as [g|e]; simpl; [|reflexivity].
    now rewrite get_thumbnail_with_status.
  - apply game_info_with_status.
  - unfold most_played_game. destruct (data self) as [plays|]; [|reflexivity].
    destruct (most_played plays) as [mp|e]; simpl; [|reflexivity].
    now rewrite game_info_with_status.
Qed.

Section ThumbnailFacts.

Lemma first_thumbnail_none (nodes : list Element) :
  Forall (fun n => ~ tagged "thumbnail" n) nodes -> first_thumbnail nodes = None.
Proof.
  induction 1 as [|n t Hn _ IH]; simpl; [reflexivity|].
  destruct (String.eqb_spec (Xml.tag n) "thumbnail"); [contradiction|exact IH].
Qed.

Lemma first_thumbnail_first (pre post : list Element) (n : Element) :
  Forall (fun m => ~ tagged "thumbnail" m) pre ->
  tagged "thumbnail" n ->
  first_thumbnail (pre ++ n :: post) = Xml.text n.
Proof.
  intros Hpre Hn. induction Hpre as [|m t Hm _ IH]; simpl.
  - unfold tagged in Hn. rewrite Hn. reflexivity.
  - destruct (String.eqb_spec (Xml.tag m) "thumbnail"); [contradiction|exact IH].
Qed.

End ThumbnailFacts.

(** X15.  Given the parsed response of the thing request, [_get_thumbnail]
    raises [IndexError] when the response has no child; otherwise it looks
    at the first child only and returns the text of its first thumbnail
    node, or [None] when it has no thumbnail node. *)
Theorem get_thumbnail_first_item (W : World) (gid : Z) (root : Element) :
  request_data W "thing" [("id", PInt gid)] = Ok root ->
  (Xml.children root = [] -> _get_thumbnail W gid = Raise IndexError) /\
  (forall first rest,
     Xml.children root = first :: rest ->
     (Forall (fun n => ~ tagged "thumbnail" n) (Xml.children first) ->
      _get_thumbnail W gid = Ok None) /\
     (forall pre n post,
        Xml.children first = pre ++ n :: post ->
        Forall (fun m => ~ tagged "thumbnail" m) pre ->
        tagged "thumbnail" n ->
        _get_thumbnail W gid = Ok (Xml.text n))).
Proof.
  intros Hr. unfold _get_thumbnail, Xml.item. rewrite Hr. simpl. split.
  - intros ->. reflexivity.
  - intros first rest ->. simpl. split.
    + intros H. now rewrite first_thumbnail_none.
    + intros pre n post -> Hpre Hn. now rewrite first_thumbnail_first.
Qed.

Lemma get_thumbnail_first_item_witness :
  _get_thumbnail Demo.world 1 = Ok (Some Demo.thumb1).
Proof.
  refine (proj2 (proj2 (get_thumbnail_first_item Demo.world 1
                          (Demo.thing_tree Demo.thumb1) eq_refl)
                   _ [] eq_refl)
            [] (mkElement "thumbnail" [] (Some Demo.thumb1) []) [] eq_refl _ eq_refl).
  constructor.
Defined.

Lemma next_with_id_missing (gid : Z) (pre post : list play) (q : play) :
  Forall (fun p => exists g, Play.game_id p = Some g /\ g <> gid) pre ->
  Play.game_id q = None ->
  next_with_id gid (pre ++ q :: post) = Raise (KeyError "game_id").
Proof.
  intros Hpre Hq. induction Hpre as [|p t (g & Eg & Hg) _ IH]; simpl.
  - now rewrite Hq.
  - rewrite Eg. simpl. destruct (Z.eqb_spec g gid); [contradiction|exact IH].
Qed.

(** X16.  On a fetched sequence, when a play without game id comes before
    any play of the game looked for, [game_info_by_id] raises
    [KeyError('game_id')]. *)
Theorem game_info_by_id_missing_id (W : World) (self : BggPlays)
        (pre post : list play) (q : play) (gid : Z) :
  data self = Some (pre ++ q :: post) ->
  Forall (fun p => exists g, Play.game_id p = Some g /\ g <> gid) pre ->
  Play.game_id q = None ->
  game_info_by_id W self gid = Raise (KeyError "game_id").
Proof.
  intros Hd Hpre Hq. unfold game_info_by_id.
  now rewrite Hd, (next_with_id_missing gid pre post q Hpre Hq).
Qed.

Lemma game_info_by_id_missing_id_witness :
  game_info_by_id Demo.world
    {| data := Some [Demo.commented "Won"; Sample.anonymous; Demo.commented "Lost"];
       username := "demo" |} 2 = Raise (KeyError "game_id").
Proof.
  refine (game_info_by_id_missing_id Demo.world (mkBggPlays (Some _) _)
            [Demo.commented "Won"] [Demo.commented "Lost"] Sample.anonymous 2
            eq_refl _ eq_refl).
  repeat constructor. exists 1. split; [reflexivity|discriminate].
Defined.

(** X17.  The page of [server.py] for a user whose fetch succeeds and
    whose first ten plays carry a name and a game id with a thumbnail the
    remote serves is the template rendered with [min 10 (len plays)]
    games; the guard for data that has not been fetched cannot fire. *)
Theorem get_root_page (W : World)
        (render_template : string -> list latest_entry -> string -> result string)
        (user : string) (plays : list play) :
  fetch_plays W user = Ok plays ->
  Forall (fun p => exists n gid th,
            Play.game_name p = Some n /\
            Play.game_id p = Some gid /\
            _get_thumbnail W gid = Ok th)
         (firstn 10 plays) ->
  exists games,
    get_root W render_template (Some user) =
      render_template "full_statistics.html" games user /\
    List.length games = Nat.min 10 (List.length plays) /\
    Forall2 (fun p e => Play.game_name p = Some (l_name e) /\
                        l_date e = Play.date p)
            (firstn 10 plays) games.
Proof.
  intros Hf Hall.
  destruct (mapM_Forall2 (latest_entry_of W)
              (fun p e => Play.game_name p = Some (l_name e) /\
                          l_date e = Play.date p)
              (firstn 10 plays)) as (games & E & H2).
  - eapply Forall_impl; [|exact Hall]. intros p (n & gid & th & En & Eg & Et).
    exists {| l_name := n; l_date := Play.date p; l_thumbnail := th |}.
    unfold latest_entry_of. rewrite En, Eg. simpl. rewrite Et. simpl.
    now repeat split.
  - exists games. split; [|split; [|exact H2]].
    + unfold get_root, fetch_data. cbn [username init]. rewrite Hf.
      cbn [fst snd bind]. unfold latest_played_games. cbn [data].
      change (firstn num_games plays) with (firstn 10 plays).
      rewrite E. reflexivity.
    + rewrite <- (Forall2_length H2). apply length_firstn.
Qed.

Lemma get_root_page_witness :
  exists games,
    get_root Demo.world Sample.render (Some "demo") =
      Sample.render "full_statistics.html" games "demo" /\
    List.length games = 3%nat.
Proof.
  destruct (get_root_page Demo.world Sample.render "demo" _ eq_refl)
    as (games & E & Hlen & _).
  - repeat constructor; do 3 eexists; repeat split; reflexivity.
  - exists games. split; [exact E|exact Hlen].
Defined.
